(** * importer.js: the pending-document importer

    A shallow embedding of [src/importer.js].  The script reads up to 20
    pending rows of [reg_documents], visits each with one browser page,
    hashes the rendered text, and either marks the row as checked, or
    uploads a PDF snapshot, rewrites the row and appends a row to
    [reg_document_versions]; a failure inside one visit is caught and the
    row is marked [error].

    The database, the object storage, the browser and the clock are
    outside the script.  Their answers are inputs of the model (a [Visit]
    per document, a [Run] per execution); their state is the [World]. *)

From Stdlib Require Import ZArith String List Lia.
From stdpp Require Import base strings gmap list pretty.

Open Scope Z_scope.

(** ** Rows *)

(** [status] column of [reg_documents]. *)
Module Status.
Inductive t := pending | active | error.

Definition eqb (a b : t) : bool :=
  match a, b with
  | pending, pending | active, active | error, error => true
  | _, _ => false
  end.
End Status.

(** ISO-8601 text produced by [new Date().toISOString()]. *)
Definition Timestamp := string.

(** Bytes of a rendered PDF ([Buffer]). *)
Definition Pdf := string.

(** The [message] of a thrown or returned error object. *)
Definition Exn := string.

(** A row of [reg_documents] as [select("*")] returns it.  A column that
    is [null] (or missing) in the JSON row is [None]; [latest_version] is
    an integer column, read as a JavaScript number. *)
Module Doc.
Record t := mk {
  id : string;
  canonical_url : string;
  status : Status.t;
  latest_version : option Z;
  content_hash : option string;
  full_text : option string;
  title : option string;
  snapshot_path : option string;
  retrieved_at : option Timestamp;
  last_checked_at : option Timestamp;
  updated_at : option Timestamp
}.
End Doc.

(** The object literal handed to [update(...)]: a column is written only
    when its key is present. *)
Module Patch.
Record t := mk {
  title : option string;
  status : option Status.t;
  latest_version : option Z;
  snapshot_path : option string;
  full_text : option string;
  content_hash : option string;
  retrieved_at : option Timestamp;
  last_checked_at : option Timestamp;
  updated_at : option Timestamp
}.

Definition put {A} (new : option A) (old : option A) : option A :=
  match new with
  | Some v => Some v
  | None => old
  end.

Definition apply (p : t) (d : Doc.t) : Doc.t :=
  {| Doc.id := Doc.id d;
     Doc.canonical_url := Doc.canonical_url d;
     Doc.status := match status p with Some s => s | None => Doc.status d end;
     Doc.latest_version := put (latest_version p) (Doc.latest_version d);
     Doc.content_hash := put (content_hash p) (Doc.content_hash d);
     Doc.full_text := put (full_text p) (Doc.full_text d);
     Doc.title := put (title p) (Doc.title d);
     Doc.snapshot_path := put (snapshot_path p) (Doc.snapshot_path d);
     Doc.retrieved_at := put (retrieved_at p) (Doc.retrieved_at d);
     Doc.last_checked_at := put (last_checked_at p) (Doc.last_checked_at d);
     Doc.updated_at := put (updated_at p) (Doc.updated_at d) |}.
End Patch.

(** A row of [reg_document_versions] as the script inserts it. *)
Module Version.
Record t := mk {
  reg_document_id : string;
  version : Z;
  snapshot_path : string;
  full_text : string;
  content_hash : string;
  retrieved_at : Timestamp
}.
End Version.

(** ** Answers of the outside world *)

(** An awaited promise either resolves or rejects. *)
Inductive Outcome (A : Type) :=
| Resolves (a : A)
| Rejects (e : Exn).
Arguments Resolves {A} a.
Arguments Rejects {A} e.

(** The [error] field of what a store call resolves to: [None] is
    [error: null] (the store did the write), [Some e] is a refusal that the
    client hands back instead of throwing (lines 20-26 and 70-73 read it). *)
Definition Response := option Exn.

(** What the outside world answers while one document is visited; a call
    that is not reached does not read its answer. *)
Record Visit := {
  goto : Outcome unit;                  (* line 39 *)
  evaluate : Outcome (option string);   (* line 42: document.body?.innerText *)
  pdf : Outcome Pdf;                    (* line 66 *)
  upload : Outcome Response;            (* lines 70-72 *)
  page_title : Outcome string;          (* line 76 *)
  update_checked : Outcome Response;    (* lines 53-56 *)
  update_captured : Outcome Response;   (* lines 78-88 *)
  insert_version : Outcome Response;    (* lines 91-98 *)
  update_failed : Outcome Response      (* lines 104-108 *)
}.

(** What the outside world answers during one execution of [main]. *)
Record Run := {
  select_pending : Outcome Response;    (* lines 20-24 *)
  launch : Outcome unit;                (* line 32 *)
  new_page : Outcome unit;              (* line 33 *)
  visits : nat -> Visit;                (* the i-th iteration of the loop *)
  close : Outcome unit                  (* line 112 *)
}.

(** ** Observable effects *)

(** A call the script makes, with the answer it got where the answer
    matters to what follows. *)
Inductive Event :=
| Log (line : string)
| LogError (line : string)
| Select
| Launch
| NewPage
| Goto (url : string)
| Evaluate
| RenderPdf
| Upload (path : string) (body : Pdf) (o : Outcome Response)
| Title
| Update (id : string) (p : Patch.t) (o : Outcome Response)
| Insert (v : Version.t) (o : Outcome Response)
| Close.

(** The two tables, the [regulations] bucket and the number of clock
    readings so far. *)
Record World := {
  reg_documents : list Doc.t;
  reg_document_versions : list Version.t;
  regulations : gmap string Pdf;
  clock : nat
}.

Definition tick (w : World) : World :=
  {| reg_documents := reg_documents w;
     reg_document_versions := reg_document_versions w;
     regulations := regulations w;
     clock := S (clock w) |}.

Definition set_reg_documents (rows : list Doc.t) (w : World) : World :=
  {| reg_documents := rows;
     reg_document_versions := reg_document_versions w;
     regulations := regulations w;
     clock := clock w |}.

Definition set_reg_document_versions (rows : list Version.t) (w : World) : World :=
  {| reg_documents := reg_documents w;
     reg_document_versions := rows;
     regulations := regulations w;
     clock := clock w |}.

Definition set_regulations (b : gmap string Pdf) (w : World) : World :=
  {| reg_documents := reg_documents w;
     reg_document_versions := reg_document_versions w;
     regulations := b;
     clock := clock w |}.

(** ** Control: state, exceptions and a log of effects *)

Inductive Completion (A : Type) :=
| Normal (a : A)
| Throw (e : Exn).
Arguments Normal {A} a.
Arguments Throw {A} e.

(** How a piece of the script ends, the world it leaves, and the calls it
    made, oldest first. *)
Record Result (A : Type) := {
  completion : Completion A;
  world : World;
  events : list Event
}.
Arguments completion {A} r.
Arguments world {A} r.
Arguments events {A} r.

Definition Js (A : Type) : Type := World -> Result A.

Definition ret {A} (a : A) : Js A :=
  fun w => {| completion := Normal a; world := w; events := [] |}.

Definition throw {A} (e : Exn) : Js A :=
  fun w => {| completion := Throw e; world := w; events := [] |}.

Definition bind {A B} (m : Js A) (k : A -> Js B) : Js B :=
  fun w =>
    match m w with
    | {| completion := Normal a; world := w1; events := evs1 |} =>
      match k a w1 with
      | {| completion := c; world := w2; events := evs2 |} =>
        {| completion := c; world := w2; events := evs1 ++ evs2 |}
      end
    | {| completion := Throw e; world := w1; events := evs1 |} =>
      {| completion := Throw e; world := w1; events := evs1 |}
    end.

Definition try_catch {A} (m : Js A) (handler : Exn -> Js A) : Js A :=
  fun w =>
    match m w with
    | {| completion := Normal a; world := w1; events := evs1 |} =>
      {| completion := Normal a; world := w1; events := evs1 |}
    | {| completion := Throw e; world := w1; events := evs1 |} =>
      match handler e w1 with
      | {| completion := c; world := w2; events := evs2 |} =>
        {| completion := c; world := w2; events := evs1 ++ evs2 |}
      end
    end.

Declare Scope js_scope.
Delimit Scope js_scope with js.
Notation "x <- m ;; k" := (bind m (fun x => k))
  (at level 100, m at next level, right associativity) : js_scope.
Notation "m ;; k" := (bind m (fun _ => k))
  (at level 100, right associativity) : js_scope.

(** ** What the script calls *)

Definition console_log (line : string) : Js unit :=
  fun w => {| completion := Normal tt; world := w; events := [Log line] |}.

Definition console_error (line : string) : Js unit :=
  fun w => {| completion := Normal tt; world := w; events := [LogError line] |}.

(** What [await] makes of a settled promise. *)
Definition settle {A} (o : Outcome A) : Completion A :=
  match o with
  | Resolves a => Normal a
  | Rejects e => Throw e
  end.

(** [await] of a browser call. *)
Definition await {A} (ev : Event) (o : Outcome A) : Js A :=
  fun w => {| completion := settle o; world := w; events := [ev] |}.

(** [.update(p).eq("id", id)] on [reg_documents]: when the store does the
    write, every row whose [id] equals [id] gets the columns of [p]; a
    refused or rejected call writes nothing. *)
Definition update_where_id (p : Patch.t) (id : string) (rows : list Doc.t) : list Doc.t :=
  map (fun r => if String.eqb (Doc.id r) id then Patch.apply p r else r) rows.

Definition update_eq_id (o : Outcome Response) (p : Patch.t) (id : string) : Js Response :=
  fun w =>
    {| completion := settle o;
       world := match o with
                | Resolves None => set_reg_documents (update_where_id p id (reg_documents w)) w
                | _ => w
                end;
       events := [Update id p o] |}.

(** [.insert(v)] on [reg_document_versions]: append-only. *)
Definition insert (o : Outcome Response) (v : Version.t) : Js Response :=
  fun w =>
    {| completion := settle o;
       world := match o with
                | Resolves None => set_reg_document_versions (reg_document_versions w ++ [v]) w
                | _ => w
                end;
       events := [Insert v o] |}.

(** [storage.from("regulations").upload(path, body, {upsert: true})]:
    an object already stored at [path] is replaced. *)
Definition storage_upload (o : Outcome Response) (path : string) (body : Pdf) : Js Response :=
  fun w =>
    {| completion := settle o;
       world := match o with
                | Resolves None => set_regulations (<[path := body]> (regulations w)) w
                | _ => w
                end;
       events := [Upload path body o] |}.

(** [.eq("status", "pending").limit(20)], rows in table order. *)
Definition batch_limit : nat := 20.

Definition is_pending (d : Doc.t) : bool := Status.eqb (Doc.status d) Status.pending.

Definition pending_rows (rows : list Doc.t) : list Doc.t :=
  firstn batch_limit (List.filter is_pending rows).

(** The awaited [{ data, error }] of the query of lines 20-24. *)
Definition select_eq_status_pending_limit (o : Outcome Response)
  : Js (option (list Doc.t) * option Exn) :=
  fun w =>
    {| completion :=
         match o with
         | Resolves None => Normal (Some (pending_rows (reg_documents w)), None)
         | Resolves (Some err) => Normal (None, Some err)
         | Rejects e => Throw e
         end;
       world := w;
       events := [Select] |}.

(** JavaScript truthiness of a nullable string and [v || d] on a nullable
    number. *)
Definition truthy (v : option string) : bool :=
  match v with
  | Some s => negb (String.eqb s "")
  | None => false
  end.

Definition or_default (v : option Z) (d : Z) : Z :=
  match v with
  | Some n => if n =? 0 then d else n
  | None => d
  end.

(** [v !== s] for a nullable string [v] and a string [s]. *)
Definition strict_neq (v : option string) (s : string) : bool :=
  match v with
  | Some h => negb (String.eqb h s)
  | None => true
  end.

(** A JavaScript integer number inside a template literal or printed by
    [console.log]: its decimal digits. *)
Definition decimal (n : Z) : string := pretty n.
Arguments decimal : simpl never.

(** [document.body?.innerText || ""] *)
Definition innerText_or_empty (body : option string) : string :=
  match body with
  | Some t => t
  | None => ""
  end.

(** ** Reading a log of effects *)

(** The addresses navigated to, oldest first. *)
Fixpoint visited (evs : list Event) : list string :=
  match evs with
  | [] => []
  | Goto url :: rest => url :: visited rest
  | _ :: rest => visited rest
  end.

(** The uploads, row updates and version inserts that were issued. *)
Fixpoint uploads (evs : list Event) : list string :=
  match evs with
  | [] => []
  | Upload path _ _ :: rest => path :: uploads rest
  | _ :: rest => uploads rest
  end.

Fixpoint updates (evs : list Event) : list (string * Patch.t) :=
  match evs with
  | [] => []
  | Update id p _ :: rest => (id, p) :: updates rest
  | _ :: rest => updates rest
  end.

Fixpoint inserts (evs : list Event) : list Version.t :=
  match evs with
  | [] => []
  | Insert v _ :: rest => v :: inserts rest
  | _ :: rest => inserts rest
  end.

Section Importer.

(** [crypto.createHash("sha256").update(text, "utf8").digest("hex")],
    the one thing the script asks of Node's [crypto]. *)
Variable digest_hex : string -> string.

(** The text of the n-th reading of the system clock. *)
Variable wall_clock : nat -> Timestamp.

(** Lines 14-16. *)
Definition sha256 (text : string) : string := digest_hex text.

Definition new_Date_toISOString : Js Timestamp :=
  fun w => {| completion := Normal (wall_clock (clock w)); world := tick w; events := [] |}.

(** Lines 47 and 49. *)
Definition changed (doc : Doc.t) (hash : string) : bool :=
  let changed :=
    if truthy (Doc.content_hash doc) then strict_neq (Doc.content_hash doc) hash else true in
  if negb (truthy (Doc.content_hash doc)) then true else changed.

(** Line 51: the test that selects the "just mark checked" branch. *)
Definition unchanged (doc : Doc.t) (hash : string) : bool :=
  truthy (Doc.content_hash doc) && negb (changed doc hash).

(** Lines 46 and 63: the value of [nextVersion] from line 64 on. *)
Definition nextVersion (doc : Doc.t) : Z :=
  let nextVersion := or_default (Doc.latest_version doc) 1 in
  if truthy (Doc.content_hash doc)
  then or_default (Doc.latest_version doc) 1 + 1
  else nextVersion.

(** Line 69. *)
Definition snapshot_path_of (doc : Doc.t) : string :=
  Doc.id doc +:+ "/v" +:+ decimal (nextVersion doc) +:+ "/snapshot.pdf".

(** The three object literals written to [reg_documents]. *)
Definition checked_patch (now : Timestamp) : Patch.t :=
  {| Patch.title := None;
     Patch.status := Some Status.active;
     Patch.latest_version := None;
     Patch.snapshot_path := None;
     Patch.full_text := None;
     Patch.content_hash := None;
     Patch.retrieved_at := None;
     Patch.last_checked_at := Some now;
     Patch.updated_at := None |}.

Definition captured_patch (doc : Doc.t) (title text hash : string)
    (t1 t2 t3 : Timestamp) : Patch.t :=
  {| Patch.title := Some title;
     Patch.status := Some Status.active;
     Patch.latest_version := Some (nextVersion doc);
     Patch.snapshot_path := Some (snapshot_path_of doc);
     Patch.full_text := Some text;
     Patch.content_hash := Some hash;
     Patch.retrieved_at := Some t1;
     Patch.last_checked_at := Some t2;
     Patch.updated_at := Some t3 |}.

Definition failed_patch (t1 t2 : Timestamp) : Patch.t :=
  {| Patch.title := None;
     Patch.status := Some Status.error;
     Patch.latest_version := None;
     Patch.snapshot_path := None;
     Patch.full_text := None;
     Patch.content_hash := None;
     Patch.retrieved_at := None;
     Patch.last_checked_at := Some t1;
     Patch.updated_at := Some t2 |}.

Definition version_row (doc : Doc.t) (text hash : string) (t : Timestamp) : Version.t :=
  {| Version.reg_document_id := Doc.id doc;
     Version.version := nextVersion doc;
     Version.snapshot_path := snapshot_path_of doc;
     Version.full_text := text;
     Version.content_hash := hash;
     Version.retrieved_at := t |}.

Local Open Scope js_scope.

(** Lines 39-100, the body of [try]. *)
Definition visit (o : Visit) (doc : Doc.t) : Js unit :=
  await (Goto (Doc.canonical_url doc)) (goto o) ;;                      (* 39 *)
  body <- await Evaluate (evaluate o) ;;                                (* 42 *)
  let text := innerText_or_empty body in
  let hash := sha256 text in                                            (* 43 *)
  if unchanged doc hash then                                            (* 51 *)
    now <- new_Date_toISOString ;;
    update_eq_id (update_checked o) (checked_patch now) (Doc.id doc) ;; (* 53-56 *)
    console_log "No change, updated last_checked_at."                   (* 58-59 *)
  else
    pdfBuffer <- await RenderPdf (pdf o) ;;                             (* 66 *)
    upErr <- storage_upload (upload o) (snapshot_path_of doc) pdfBuffer ;;
    match upErr with Some e => throw e | None => ret tt end ;;          (* 73 *)
    title <- await Title (page_title o) ;;                              (* 76 *)
    t1 <- new_Date_toISOString ;;
    t2 <- new_Date_toISOString ;;
    t3 <- new_Date_toISOString ;;
    update_eq_id (update_captured o) (captured_patch doc title text hash t1 t2 t3)
      (Doc.id doc) ;;                                                   (* 78-88 *)
    t4 <- new_Date_toISOString ;;
    insert (insert_version o) (version_row doc text hash t4) ;;         (* 91-98 *)
    console_log ("Saved version " +:+ decimal (nextVersion doc)).       (* 100 *)

(** Lines 101-109, the body of [catch (e)]. *)
Definition on_failure (o : Visit) (doc : Doc.t) (e : Exn) : Js unit :=
  console_error ("Failed: " +:+ Doc.canonical_url doc +:+ " " +:+ e) ;;
  t1 <- new_Date_toISOString ;;
  t2 <- new_Date_toISOString ;;
  update_eq_id (update_failed o) (failed_patch t1 t2) (Doc.id doc) ;;
  ret tt.

(** Lines 36-109, one iteration of the loop. *)
Definition loop_body (o : Visit) (doc : Doc.t) : Js unit :=
  console_log ("Processing: " +:+ Doc.canonical_url doc) ;;
  try_catch (visit o doc) (on_failure o doc).

(** Lines 35-110: [for (const doc of docs)], the [i]-th iteration
    reading [answers i]. *)
Fixpoint for_of (answers : nat -> Visit) (i : nat) (docs : list Doc.t) : Js unit :=
  match docs with
  | [] => ret tt
  | doc :: rest => loop_body (answers i) doc ;; for_of answers (S i) rest
  end.

(** Lines 18-113. *)
Definition main (r : Run) : Js unit :=
  response <- select_eq_status_pending_limit (select_pending r) ;;
  let '(docs, error) := response in
  match error with
  | Some e => throw e
  | None =>
    match docs with
    | None | Some [] => console_log "No pending documents."
    | Some docs =>
      await Launch (launch r) ;;
      await NewPage (new_page r) ;;
      for_of (visits r) 0 docs ;;
      await Close (close r)
    end
  end.

End Importer.

Arguments sha256 : simpl never.
Arguments changed : simpl never.
Arguments unchanged : simpl never.
Arguments nextVersion : simpl never.
Arguments snapshot_path_of : simpl never.
Arguments checked_patch : simpl never.
Arguments captured_patch : simpl never.
Arguments failed_patch : simpl never.
Arguments version_row : simpl never.

(** ** Sample data

    Concrete rows and answers on which the statements below are
    evaluated. *)
Module Sample.

Definition text_v1 : string := "Article 1. Scope.".
Definition text_v2 : string := "Article 1. Scope (amended).".
Definition H1 : string :=
  "0e9574f1a63dd5aa01d2a982df4a697a70aed278300b2c4bb4bb0c01d77f3fb4".
Definition H2 : string :=
  "50fdf33da089877071015d8bf1e6133e5c9c0413d8738a6ae6351aeab69d5bfb".
Definition H_empty : string :=
  "e3b0c44298fc1c149afbf4c8996fb92427ae41e4649b934ca495991b7852b855".

(** The SHA-256 digests of the sample texts; every other text is
    given the digest of the empty text, which no example relies on. *)
Definition digest (text : string) : string :=
  if String.eqb text text_v1 then H1
  else if String.eqb text text_v2 then H2
  else H_empty.

Definition wall_clock (n : nat) : Timestamp :=
  "2024-05-01T09:00:00." +:+ pretty n +:+ "Z".

Definition row (id : string) (s : Status.t) (v : option Z) (h : option string) : Doc.t :=
  {| Doc.id := id;
     Doc.canonical_url := "https://example.org/" +:+ id;
     Doc.status := s;
     Doc.latest_version := v;
     Doc.content_hash := h;
     Doc.full_text := None;
     Doc.title := None;
     Doc.snapshot_path := None;
     Doc.retrieved_at := None;
     Doc.last_checked_at := None;
     Doc.updated_at := None |}.

(** Never fetched. *)
Definition fresh : Doc.t := row "d1" Status.pending None None.
(** Captured three times, last as [text_v1]. *)
Definition seen : Doc.t := row "d2" Status.pending (Some 3) (Some H1).
(** Hash cleared by hand, version kept. *)
Definition reset : Doc.t := row "d3" Status.pending (Some 3) None.

Definition store (rows : list Doc.t) : World :=
  {| reg_documents := rows;
     reg_document_versions := [];
     regulations := ∅;
     clock := 0 |}.

(** The page shows [text] and every call succeeds. *)
Definition smooth (text : string) : Visit :=
  {| goto := Resolves tt;
     evaluate := Resolves (Some text);
     pdf := Resolves "%PDF-1.4";
     upload := Resolves None;
     page_title := Resolves "Regulation";
     update_checked := Resolves None;
     update_captured := Resolves None;
     insert_version := Resolves None;
     update_failed := Resolves None |}.

Definition with_upload (r : Outcome Response) (o : Visit) : Visit :=
  {| goto := goto o; evaluate := evaluate o; pdf := pdf o;
     upload := r;
     page_title := page_title o; update_checked := update_checked o;
     update_captured := update_captured o; insert_version := insert_version o;
     update_failed := update_failed o |}.

Definition with_update_captured (r : Outcome Response) (o : Visit) : Visit :=
  {| goto := goto o; evaluate := evaluate o; pdf := pdf o; upload := upload o;
     page_title := page_title o; update_checked := update_checked o;
     update_captured := r;
     insert_version := insert_version o; update_failed := update_failed o |}.

Definition with_insert_version (r : Outcome Response) (o : Visit) : Visit :=
  {| goto := goto o; evaluate := evaluate o; pdf := pdf o; upload := upload o;
     page_title := page_title o; update_checked := update_checked o;
     update_captured := update_captured o;
     insert_version := r;
     update_failed := update_failed o |}.

Definition with_update_failed (r : Outcome Response) (o : Visit) : Visit :=
  {| goto := goto o; evaluate := evaluate o; pdf := pdf o; upload := upload o;
     page_title := page_title o; update_checked := update_checked o;
     update_captured := update_captured o; insert_version := insert_version o;
     update_failed := r |}.

Definition with_goto (r : Outcome unit) (o : Visit) : Visit :=
  {| goto := r;
     evaluate := evaluate o; pdf := pdf o; upload := upload o;
     page_title := page_title o; update_checked := update_checked o;
     update_captured := update_captured o; insert_version := insert_version o;
     update_failed := update_failed o |}.

(** The page shows [text]; one call is refused. *)
Definition upload_refused (text : string) : Visit :=
  with_upload (Resolves (Some "Payload too large")) (smooth text).

Definition update_refused (text : string) : Visit :=
  with_update_captured (Resolves (Some "permission denied")) (smooth text).

Definition insert_refused (text : string) : Visit :=
  with_insert_version (Resolves (Some "duplicate key value")) (smooth text).

(** The page of the second document cannot be reached; the others are
    read as [text_v2]. *)
Definition second_times_out (j : nat) : Visit :=
  match j with
  | 1%nat => with_goto (Rejects "Timeout 60000ms exceeded") (smooth text_v2)
  | _ => smooth text_v2
  end.

(** No page can be reached and the store refuses every status update
    of the handler. *)
Definition unreachable_and_refused (j : nat) : Visit :=
  with_update_failed (Resolves (Some "permission denied"))
    (with_goto (Rejects "Timeout 60000ms exceeded") (smooth text_v1)).

(** Twenty-five pending rows [p0] ... [p24]. *)
Definition many_pending : list Doc.t :=
  map (fun n : nat => row ("p" +:+ pretty n) Status.pending None None) (seq 0 25).

(** The first capture of [reset], read as [text_v1], every call
    succeeding. *)
Definition reset_capture : Result unit :=
  loop_body digest wall_clock (smooth text_v1) reset (store [reset]).

(** The store refuses the query. *)
Definition query_refused : Run :=
  {| select_pending := Resolves (Some "JWT expired");
     launch := Resolves tt;
     new_page := Resolves tt;
     visits := fun _ => smooth text_v1;
     close := Resolves tt |}.

(** The browser cannot be started. *)
Definition no_browser : Run :=
  {| select_pending := Resolves None;
     launch := Rejects "Executable doesn't exist";
     new_page := Resolves tt;
     visits := fun _ => smooth text_v1;
     close := Resolves tt |}.

(** No page can be reached and the promise of the handler's update
    rejects. *)
Definition unreachable_and_rejected (j : nat) : Visit :=
  with_update_failed (Rejects "fetch failed")
    (with_goto (Rejects "Timeout 60000ms exceeded") (smooth text_v1)).

Definition run (answers : nat -> Visit) : Run :=
  {| select_pending := Resolves None;
     launch := Resolves tt;
     new_page := Resolves tt;
     visits := answers;
     close := Resolves tt |}.

End Sample.

(** ** Comparing rows *)

(** The columns a content capture writes are the same in [r] and [r']. *)
Definition same_capture (r r' : Doc.t) : Prop :=
  Doc.title r' = Doc.title r /\
  Doc.latest_version r' = Doc.latest_version r /\
  Doc.snapshot_path r' = Doc.snapshot_path r /\
  Doc.full_text r' = Doc.full_text r /\
  Doc.content_hash r' = Doc.content_hash r /\
  Doc.retrieved_at r' = Doc.retrieved_at r.

(** [r'] is [r] except, at most, for [status] and [last_checked_at]. *)
Definition same_but_check (r r' : Doc.t) : Prop :=
  Doc.id r' = Doc.id r /\
  Doc.canonical_url r' = Doc.canonical_url r /\
  same_capture r r' /\
  Doc.updated_at r' = Doc.updated_at r.

(** ** Replaying a log of effects *)

(** The rows of [reg_documents] after the writes of [evs] that the store
    did, in order. *)
Fixpoint replay_documents (evs : list Event) (rows : list Doc.t) : list Doc.t :=
  match evs with
  | [] => rows
  | Update id p (Resolves None) :: rest => replay_documents rest (update_where_id p id rows)
  | _ :: rest => replay_documents rest rows
  end.

(** The rows of [reg_document_versions] after the inserts of [evs] that
    the store did, in order. *)
Fixpoint replay_versions (evs : list Event) (rows : list Version.t) : list Version.t :=
  match evs with
  | [] => rows
  | Insert v (Resolves None) :: rest => replay_versions rest (rows ++ [v])
  | _ :: rest => replay_versions rest rows
  end.

(** A piece of the script changes the two tables only through the
    writes it logs. *)
Definition Faithful {A} (m : Js A) : Prop :=
  forall w,
    reg_documents (world (m w)) = replay_documents (events (m w)) (reg_documents w) /\
    reg_document_versions (world (m w)) =
      replay_versions (events (m w)) (reg_document_versions w).

(** A piece of the script navigates nowhere. *)
Definition Stays {A} (m : Js A) : Prop :=
  forall w, visited (events (m w)) = [].

(** Every call a piece of the script makes satisfies [P]. *)
Definition Emits {A} (P : Event -> Prop) (m : Js A) : Prop :=
  forall w, Forall P (events (m w)).

(** What a call made while [doc] is visited may be: no query and no
    browser start or stop, navigation to the document's own address,
    upload to its own snapshot path, row updates on its own id that set
    [status] to [active] or [error] and [latest_version], if at all, to
    [nextVersion], and inserts for its own id at that version. *)
Definition own_call (doc : Doc.t) (ev : Event) : Prop :=
  match ev with
  | Select | Launch | NewPage | Close => False
  | Goto url => url = Doc.canonical_url doc
  | Upload path _ _ => path = snapshot_path_of doc
  | Update id p _ =>
    id = Doc.id doc /\
    (Patch.status p = Some Status.active \/ Patch.status p = Some Status.error) /\
    (Patch.latest_version p = None \/ Patch.latest_version p = Some (nextVersion doc))
  | Insert v _ =>
    Version.reg_document_id v = Doc.id doc /\ Version.version v = nextVersion doc
  | Log _ | LogError _ | Evaluate | RenderPdf | Title => True
  end.

(** A row update that takes the row out of the queue. *)
Definition settles (ev : Event) : Prop :=
  match ev with
  | Update _ p _ =>
    Patch.status p = Some Status.active \/ Patch.status p = Some Status.error
  | _ => True
  end.

(** The query and the browser's start and stop among the calls of a
    run, oldest first. *)
Fixpoint lifecycle (evs : list Event) : list Event :=
  match evs with
  | [] => []
  | (Select | Launch | NewPage | Close) as ev :: rest => ev :: lifecycle rest
  | _ :: rest => lifecycle rest
  end.

(** ** The process: lines 5-12 and 115-118 *)

(** The environment of the process and what the outside world answers:
    the two variables read at lines 5-6, whether [createClient] returns
    or throws (line 12), and the answers [main] gets. *)
Record Process := {
  SUPABASE_URL : option string;
  SUPABASE_SERVICE_ROLE_KEY : option string;
  createClient : Outcome unit;
  outside : Run
}.

(** How the process ends: its exit code, the world it leaves and the
    calls it made. *)
Record Exit := {
  exit_code : Z;
  remains : World;
  calls : list Event
}.

(** The module body.  An error thrown at lines 9 or 12 is uncaught and
    ends the process with code 1 before [main] is called; a rejection of
    [main()] is printed and the process exits with code 1 (lines
    115-118); otherwise the process ends with code 0. *)
Definition script (digest_hex : string -> string) (wall_clock : nat -> Timestamp)
    (p : Process) (w : World) : Exit :=
  if negb (truthy (SUPABASE_URL p)) || negb (truthy (SUPABASE_SERVICE_ROLE_KEY p)) then
    {| exit_code := 1; remains := w; calls := [] |}
  else
    match createClient p with
    | Rejects _ => {| exit_code := 1; remains := w; calls := [] |}
    | Resolves _ =>
      match main digest_hex wall_clock (outside p) w with
      | {| completion := Normal _; world := w'; events := evs |} =>
        {| exit_code := 0; remains := w'; calls := evs |}
      | {| completion := Throw e; world := w'; events := evs |} =>
        {| exit_code := 1; remains := w'; calls := evs ++ [LogError e] |}
      end
    end.

(** ** More sample data *)
Module Sample2.

(** The page shows [text]; the snapshot is stored, then [page.title()]
    fails. *)
Definition title_fails (text : string) : Visit :=
  {| goto := Resolves tt;
     evaluate := Resolves (Some text);
     pdf := Resolves "%PDF-1.4";
     upload := Resolves None;
     page_title := Rejects "Execution context was destroyed";
     update_checked := Resolves None;
     update_captured := Resolves None;
     insert_version := Resolves None;
     update_failed := Resolves None |}.

(** The row [Sample.seen] as another run left it after an error. *)
Definition seen_failed : Doc.t :=
  Sample.row "d2" Status.error (Some 3) (Some Sample.H2).

(** A row that is out of the queue. *)
Definition done : Doc.t :=
  Sample.row "d4" Status.active (Some 1) (Some Sample.H1).

(** Both variables set, the client created. *)
Definition configured (r : Run) : Process :=
  {| SUPABASE_URL := Some "https://project.supabase.co";
     SUPABASE_SERVICE_ROLE_KEY := Some "service-role-key";
     createClient := Resolves tt;
     outside := r |}.

End Sample2.

(** ** Properties *)

Lemma update_where_id_Forall2 (R : Doc.t -> Doc.t -> Prop) p id rows :
  (forall r, Doc.id r <> id -> R r r) ->
  (forall r, Doc.id r = id -> R r (Patch.apply p r)) ->
  Forall2 R rows (update_where_id p id rows).
Proof.
  intros Hother Hpatch. unfold update_where_id.
  induction rows as [|r rows IH]; simpl; constructor; auto.
  destruct (String.eqb (Doc.id r) id) eqn:E.
  - apply Hpatch. now apply String.eqb_eq.
  - apply Hother. now apply String.eqb_neq.
Qed.

Lemma Forall2_same (A : Type) (R : A -> A -> Prop) (l : list A) :
  (forall x, R x x) -> Forall2 R l l.
Proof. intros H. induction l; constructor; auto. Qed.

Lemma bind_normal {A B} (m : Js A) (k : A -> Js B) w a :
  completion (m w) = Normal a ->
  bind m k w =
  {| completion := completion (k a (world (m w)));
     world := world (k a (world (m w)));
     events := events (m w) ++ events (k a (world (m w))) |}.
Proof.
  unfold bind. destruct (m w) as [c w1 evs1]. simpl. intros ->.
  now destruct (k a w1).
Qed.

Lemma bind_throw {A B} (m : Js A) (k : A -> Js B) w e :
  completion (m w) = Throw e ->
  bind m k w =
  {| completion := Throw e; world := world (m w); events := events (m w) |}.
Proof. unfold bind. destruct (m w) as [c w1 evs1]. simpl. now intros ->. Qed.

Lemma visited_app evs evs' : visited (evs ++ evs') = visited evs ++ visited evs'.
Proof.
  induction evs as [|ev evs IH]; [reflexivity|].
  destruct ev; simpl; now rewrite ?IH.
Qed.

Lemma replay_documents_app evs evs' rows :
  replay_documents (evs ++ evs') rows = replay_documents evs' (replay_documents evs rows).
Proof.
  revert rows. induction evs as [|ev evs IH]; intros rows; [reflexivity|].
  destruct ev as [| | | | | | | | | |id p [[err|]|e]| |]; simpl; apply IH.
Qed.

Lemma replay_versions_app evs evs' rows :
  replay_versions (evs ++ evs') rows = replay_versions evs' (replay_versions evs rows).
Proof.
  revert rows. induction evs as [|ev evs IH]; intros rows; [reflexivity|].
  destruct ev as [| | | | | | | | | | |v [[err|]|e]|]; simpl; apply IH.
Qed.

Lemma replay_documents_no_updates evs rows :
  updates evs = [] -> replay_documents evs rows = rows.
Proof.
  induction evs as [|ev evs IH]; [reflexivity|].
  destruct ev; simpl; auto; discriminate.
Qed.

Lemma replay_versions_no_inserts evs rows :
  inserts evs = [] -> replay_versions evs rows = rows.
Proof.
  induction evs as [|ev evs IH]; [reflexivity|].
  destruct ev; simpl; auto; discriminate.
Qed.

Lemma replay_versions_appends evs rows :
  exists added, replay_versions evs rows = rows ++ added.
Proof.
  revert rows. induction evs as [|ev evs IH]; intros rows.
  - exists []. now rewrite app_nil_r.
  - destruct ev as [| | | | | | | | | | |v [[err|]|e]|]; simpl; auto.
    destruct (IH (rows ++ [v])) as [added ->].
    exists (v :: added). now rewrite <- List.app_assoc.
Qed.

(** *** Rules for [Faithful] and [Stays], one per construct *)

Lemma faithful_ret {A} (a : A) : Faithful (ret a).
Proof. now intros w. Qed.

Lemma faithful_throw {A} e : Faithful (@throw A e).
Proof. now intros w. Qed.

Lemma faithful_bind {A B} (m : Js A) (k : A -> Js B) :
  Faithful m -> (forall a, Faithful (k a)) -> Faithful (bind m k).
Proof.
  intros Hm Hk w. specialize (Hm w). unfold bind.
  destruct (m w) as [[a|e] w1 evs1]; simpl in *; [|exact Hm].
  specialize (Hk a w1). destruct (k a w1) as [c w2 evs2]; simpl in *.
  rewrite replay_documents_app, replay_versions_app.
  destruct Hm as [<- <-]. exact Hk.
Qed.

Lemma faithful_try_catch {A} (m : Js A) (h : Exn -> Js A) :
  Faithful m -> (forall e, Faithful (h e)) -> Faithful (try_catch m h).
Proof.
  intros Hm Hh w. specialize (Hm w). unfold try_catch.
  destruct (m w) as [[a|e] w1 evs1]; simpl in *; [exact Hm|].
  specialize (Hh e w1). destruct (h e w1) as [c w2 evs2]; simpl in *.
  rewrite replay_documents_app, replay_versions_app.
  destruct Hm as [<- <-]. exact Hh.
Qed.

Lemma faithful_console_log line : Faithful (console_log line).
Proof. now intros w. Qed.

Lemma faithful_console_error line : Faithful (console_error line).
Proof. now intros w. Qed.

Lemma faithful_await {A} ev (o : Outcome A) :
  updates [ev] = [] -> inserts [ev] = [] -> Faithful (await ev o).
Proof.
  intros Hu Hi w. unfold await.
  split; symmetry;
    [apply replay_documents_no_updates | apply replay_versions_no_inserts];
    assumption.
Qed.

Lemma faithful_update_eq_id o p id : Faithful (update_eq_id o p id).
Proof. intros w. now destruct o as [[err|]|e]. Qed.

Lemma faithful_insert o v : Faithful (insert o v).
Proof. intros w. now destruct o as [[err|]|e]. Qed.

Lemma faithful_storage_upload o path body : Faithful (storage_upload o path body).
Proof. intros w. now destruct o as [[err|]|e]. Qed.

Lemma faithful_select o : Faithful (select_eq_status_pending_limit o).
Proof. now intros w. Qed.

Lemma stays_ret {A} (a : A) : Stays (ret a).
Proof. now intros w. Qed.

Lemma stays_throw {A} e : Stays (@throw A e).
Proof. now intros w. Qed.

Lemma stays_bind {A B} (m : Js A) (k : A -> Js B) :
  Stays m -> (forall a, Stays (k a)) -> Stays (bind m k).
Proof.
  intros Hm Hk w. specialize (Hm w). unfold bind.
  destruct (m w) as [[a|e] w1 evs1]; simpl in *; [|exact Hm].
  specialize (Hk a w1). destruct (k a w1) as [c w2 evs2]; simpl in *.
  now rewrite visited_app, Hm, Hk.
Qed.

Lemma stays_console_log line : Stays (console_log line).
Proof. now intros w. Qed.

Lemma stays_console_error line : Stays (console_error line).
Proof. now intros w. Qed.

Lemma stays_await {A} ev (o : Outcome A) : visited [ev] = [] -> Stays (await ev o).
Proof. now intros H w. Qed.

Lemma stays_update_eq_id o p id : Stays (update_eq_id o p id).
Proof. now intros w. Qed.

Lemma stays_insert o v : Stays (insert o v).
Proof. now intros w. Qed.

Lemma stays_storage_upload o path body : Stays (storage_upload o path body).
Proof. now intros w. Qed.

Create HintDb js discriminated.

#[local] Hint Resolve faithful_ret faithful_throw faithful_console_log
  faithful_console_error faithful_update_eq_id faithful_insert
  faithful_storage_upload faithful_select : js.
#[local] Hint Resolve stays_ret stays_throw stays_console_log stays_console_error
  stays_update_eq_id stays_insert stays_storage_upload : js.
#[local] Hint Extern 1 (Faithful (await _ _)) =>
  apply faithful_await; reflexivity : js.
#[local] Hint Extern 1 (Stays (await _ _)) => apply stays_await; reflexivity : js.

(** Walks through a piece of the script, construct by construct. *)
Ltac walk :=
  repeat first
    [ solve [auto with js]
    | progress cbv zeta
    | apply faithful_bind; [|intros ?]
    | apply faithful_try_catch; [|intros ?]
    | apply stays_bind; [|intros ?]
    | match goal with
      | |- Faithful (if ?c then _ else _) => destruct c
      | |- Stays (if ?c then _ else _) => destruct c
      | |- Faithful (match ?x with Some _ => _ | None => _ end) => destruct x
      | |- Stays (match ?x with Some _ => _ | None => _ end) => destruct x
      end ].

(** The first call of a piece decides where it navigates when the rest
    stays on the page. *)
Lemma visited_goto_then {A} url (o : Outcome unit) (k : unit -> Js A) w :
  (forall a, Stays (k a)) ->
  visited (events (bind (await (Goto url) o) k w)) = [url].
Proof.
  intros Hk. unfold bind, await. destruct o as [a|e]; simpl; [|reflexivity].
  specialize (Hk a w). destruct (k a w) as [c w2 evs2]; simpl in *.
  now rewrite Hk.
Qed.

(** Uploading twice to one path keeps one object, the later one
    ([upsert: true]). *)
Lemma upload_overwrites path body body' w :
  let w1 := world (storage_upload (Resolves None) path body w) in
  regulations (world (storage_upload (Resolves None) path body' w1)) =
  <[path := body']> (regulations w).
Proof. cbn. apply insert_insert_eq. Qed.

Lemma nonempty_not_eqb_empty (s : string) :
  (0 < String.length s)%nat -> String.eqb s "" = false.
Proof. destruct s; simpl; [lia | reflexivity]. Qed.

Section Properties.

Variable digest_hex : string -> string.
Hypothesis digest_hex_length : forall text, String.length (digest_hex text) = 64%nat.
Variable wall_clock : nat -> Timestamp.

(** *** The test of line 51 *)

(** A stored digest is a truthy value. *)
Lemma digest_truthy text : truthy (Some (sha256 digest_hex text)) = true.
Proof.
  unfold truthy, sha256. rewrite nonempty_not_eqb_empty; [reflexivity|].
  rewrite digest_hex_length. lia.
Qed.

Lemma unchanged_same_digest doc text :
  Doc.content_hash doc = Some (sha256 digest_hex text) ->
  unchanged doc (sha256 digest_hex text) = true.
Proof.
  intros H. unfold unchanged, changed. rewrite H, digest_truthy. simpl.
  now rewrite String.eqb_refl.
Qed.

Lemma unchanged_other_digest doc h hash :
  Doc.content_hash doc = Some h -> h <> hash -> unchanged doc hash = false.
Proof.
  intros H Hne. unfold unchanged, changed. rewrite H. simpl.
  apply String.eqb_neq in Hne. rewrite Hne.
  now destruct (String.eqb h "").
Qed.

Lemma unchanged_no_digest doc hash :
  Doc.content_hash doc = None -> unchanged doc hash = false.
Proof. intros H. unfold unchanged. now rewrite H. Qed.

(** *** The whole script changes the tables only through logged writes *)

Lemma faithful_new_Date : Faithful (new_Date_toISOString wall_clock).
Proof. now intros w. Qed.

Lemma stays_new_Date : Stays (new_Date_toISOString wall_clock).
Proof. now intros w. Qed.

Hint Resolve faithful_new_Date stays_new_Date : js.

Lemma faithful_visit o doc : Faithful (visit digest_hex wall_clock o doc).
Proof. unfold visit. walk. Qed.

Lemma faithful_on_failure o doc e : Faithful (on_failure wall_clock o doc e).
Proof. unfold on_failure. walk. Qed.

Hint Resolve faithful_visit faithful_on_failure : js.

Lemma faithful_loop_body o doc : Faithful (loop_body digest_hex wall_clock o doc).
Proof. unfold loop_body. walk. Qed.

Lemma faithful_for_of answers i docs :
  Faithful (for_of digest_hex wall_clock answers i docs).
Proof.
  revert i. induction docs as [|doc rest IH]; intros i; simpl.
  - apply faithful_ret.
  - apply faithful_bind; [apply faithful_loop_body | intros _; apply IH].
Qed.

Lemma faithful_main r : Faithful (main digest_hex wall_clock r).
Proof.
  unfold main. apply faithful_bind; [auto with js|].
  intros [docs [err|]]; [auto with js|].
  destruct docs as [[|doc rest]|]; auto with js.
  walk. apply faithful_for_of.
Qed.

(** The version table is append-only over a whole run. *)
Lemma main_appends_versions r w :
  exists added,
    reg_document_versions (world (main digest_hex wall_clock r w)) =
    reg_document_versions w ++ added.
Proof.
  destruct (faithful_main r w) as [_ ->]. apply replay_versions_appends.
Qed.

(** *** One iteration navigates once, to the document's address *)

Lemma visit_visited o doc w :
  visited (events (visit digest_hex wall_clock o doc w)) = [Doc.canonical_url doc].
Proof. unfold visit. apply visited_goto_then. intros _. walk. Qed.

Lemma stays_on_failure o doc e : Stays (on_failure wall_clock o doc e).
Proof. unfold on_failure. walk. Qed.

(** *** [try] and [catch] *)

(** The body of [try] ends normally: [catch] is skipped. *)
Lemma loop_body_passed o doc w :
  completion (visit digest_hex wall_clock o doc w) = Normal tt ->
  loop_body digest_hex wall_clock o doc w =
  {| completion := Normal tt;
     world := world (visit digest_hex wall_clock o doc w);
     events :=
       Log ("Processing: " +:+ Doc.canonical_url doc)
         :: events (visit digest_hex wall_clock o doc w) |}.
Proof.
  unfold loop_body, try_catch. unfold bind at 1. unfold console_log.
  destruct (visit digest_hex wall_clock o doc w) as [c w1 evs1]. simpl.
  now intros ->.
Qed.

(** The body of [try] throws [e]: the handler logs it and issues the
    status update, whose answer alone decides how the iteration ends. *)
Lemma loop_body_caught o doc w e :
  completion (visit digest_hex wall_clock o doc w) = Throw e ->
  let w1 := world (visit digest_hex wall_clock o doc w) in
  let p := failed_patch (wall_clock (clock w1)) (wall_clock (S (clock w1))) in
  loop_body digest_hex wall_clock o doc w =
  {| completion :=
       match update_failed o with
       | Resolves _ => Normal tt
       | Rejects e' => Throw e'
       end;
     world :=
       match update_failed o with
       | Resolves None =>
         set_reg_documents (update_where_id p (Doc.id doc) (reg_documents w1))
           (tick (tick w1))
       | _ => tick (tick w1)
       end;
     events :=
       Log ("Processing: " +:+ Doc.canonical_url doc)
         :: events (visit digest_hex wall_clock o doc w)
         ++ [LogError ("Failed: " +:+ Doc.canonical_url doc +:+ " " +:+ e);
             Update (Doc.id doc) p (update_failed o)] |}.
Proof.
  unfold loop_body, try_catch. unfold bind at 1. unfold console_log.
  destruct (visit digest_hex wall_clock o doc w) as [c w1 evs1]. simpl.
  intros ->. unfold on_failure, bind. cbn.
  now destruct (update_failed o) as [[err|]|e'].
Qed.

Lemma loop_body_visited o doc w :
  visited (events (loop_body digest_hex wall_clock o doc w)) = [Doc.canonical_url doc].
Proof.
  destruct (completion (visit digest_hex wall_clock o doc w)) as [[]|e] eqn:E.
  - rewrite loop_body_passed by assumption. simpl. apply visit_visited.
  - rewrite (loop_body_caught _ _ _ _ E). cbn [events visited].
    rewrite visited_app, visit_visited. reflexivity.
Qed.

Lemma loop_body_completion o doc w r :
  update_failed o = Resolves r ->
  completion (loop_body digest_hex wall_clock o doc w) = Normal tt.
Proof.
  intros H.
  destruct (completion (visit digest_hex wall_clock o doc w)) as [[]|e] eqn:E.
  - now rewrite loop_body_passed.
  - rewrite (loop_body_caught _ _ _ _ E). simpl. now rewrite H.
Qed.

(** *** The loop *)

Lemma for_of_cons answers i doc rest w :
  completion (loop_body digest_hex wall_clock (answers i) doc w) = Normal tt ->
  let R := loop_body digest_hex wall_clock (answers i) doc w in
  let R' := for_of digest_hex wall_clock answers (S i) rest (world R) in
  for_of digest_hex wall_clock answers i (doc :: rest) w =
  {| completion := completion R'; world := world R'; events := events R ++ events R' |}.
Proof. intros H. simpl. now rewrite (bind_normal _ _ _ _ H). Qed.

(** Whatever happens, the loop visits a prefix of the batch, in order. *)
Lemma for_of_visited_prefix answers i docs w :
  exists k,
    visited (events (for_of digest_hex wall_clock answers i docs w)) =
    map Doc.canonical_url (firstn k docs).
Proof.
  revert i w. induction docs as [|doc rest IH]; intros i w.
  - exists 0%nat. reflexivity.
  - destruct (completion (loop_body digest_hex wall_clock (answers i) doc w))
      as [[]|e] eqn:E.
    + destruct (IH (S i) (world (loop_body digest_hex wall_clock (answers i) doc w)))
        as [k Hk].
      exists (S k). rewrite for_of_cons by assumption. cbn [events].
      rewrite visited_app, loop_body_visited, Hk. reflexivity.
    + exists 1%nat. simpl. rewrite (bind_throw _ _ _ _ E). cbn [events].
      rewrite loop_body_visited. now destruct rest.
Qed.

(** *** One iteration, path by path *)

(** The page is reached and read, and the test of line 51 picks the
    "just mark checked" branch. *)
Lemma loop_body_checked o doc w body r :
  goto o = Resolves tt ->
  evaluate o = Resolves body ->
  unchanged doc (sha256 digest_hex (innerText_or_empty body)) = true ->
  update_checked o = Resolves r ->
  loop_body digest_hex wall_clock o doc w =
  {| completion := Normal tt;
     world :=
       match r with
       | None =>
         set_reg_documents
           (update_where_id (checked_patch (wall_clock (clock w))) (Doc.id doc)
              (reg_documents w))
           (tick w)
       | Some _ => tick w
       end;
     events :=
       [Log ("Processing: " +:+ Doc.canonical_url doc);
        Goto (Doc.canonical_url doc);
        Evaluate;
        Update (Doc.id doc) (checked_patch (wall_clock (clock w))) (Resolves r);
        Log "No change, updated last_checked_at."] |}.
Proof.
  intros Hg He Hu Hc. unfold loop_body, visit, try_catch, bind.
  rewrite Hg, He. cbn. rewrite Hu. cbn. rewrite Hc. cbn.
  now destruct r.
Qed.

(** The page is reached and read, the snapshot is rendered and stored,
    the title is read, and both writes resolve ([ru] and [ri] say
    whether the store did them). *)
Lemma loop_body_captured o doc w body buf ttl ru ri :
  goto o = Resolves tt ->
  evaluate o = Resolves body ->
  unchanged doc (sha256 digest_hex (innerText_or_empty body)) = false ->
  pdf o = Resolves buf ->
  upload o = Resolves None ->
  page_title o = Resolves ttl ->
  update_captured o = Resolves ru ->
  insert_version o = Resolves ri ->
  let text := innerText_or_empty body in
  let hash := sha256 digest_hex text in
  let p := captured_patch doc ttl text hash (wall_clock (clock w))
             (wall_clock (S (clock w))) (wall_clock (S (S (clock w)))) in
  let v := version_row doc text hash (wall_clock (S (S (S (clock w))))) in
  let R := loop_body digest_hex wall_clock o doc w in
  completion R = Normal tt /\
  reg_documents (world R) =
    match ru with
    | None => update_where_id p (Doc.id doc) (reg_documents w)
    | Some _ => reg_documents w
    end /\
  reg_document_versions (world R) =
    match ri with
    | None => reg_document_versions w ++ [v]
    | Some _ => reg_document_versions w
    end /\
  regulations (world R) = <[snapshot_path_of doc := buf]> (regulations w) /\
  events R =
    [Log ("Processing: " +:+ Doc.canonical_url doc);
     Goto (Doc.canonical_url doc);
     Evaluate;
     RenderPdf;
     Upload (snapshot_path_of doc) buf (Resolves None);
     Title;
     Update (Doc.id doc) p (Resolves ru);
     Insert v (Resolves ri);
     Log ("Saved version " +:+ decimal (nextVersion doc))].
Proof.
  intros Hg He Hu Hp Hup Ht Hc Hi. unfold loop_body, visit, try_catch, bind.
  rewrite Hg, He. cbn. rewrite Hu, Hp, Hup. cbn. rewrite Ht, Hc, Hi. cbn.
  destruct ru, ri; repeat split; reflexivity.
Qed.

(** The upload is refused by the storage service or its promise
    rejects: line 73 (or the [await]) throws [e] and the handler runs. *)
Lemma loop_body_upload_failed o doc w body buf e :
  goto o = Resolves tt ->
  evaluate o = Resolves body ->
  unchanged doc (sha256 digest_hex (innerText_or_empty body)) = false ->
  pdf o = Resolves buf ->
  upload o = Resolves (Some e) \/ upload o = Rejects e ->
  let p := failed_patch (wall_clock (clock w)) (wall_clock (S (clock w))) in
  let R := loop_body digest_hex wall_clock o doc w in
  completion R =
    match update_failed o with
    | Resolves _ => Normal tt
    | Rejects e' => Throw e'
    end /\
  reg_documents (world R) =
    match update_failed o with
    | Resolves None => update_where_id p (Doc.id doc) (reg_documents w)
    | _ => reg_documents w
    end /\
  reg_document_versions (world R) = reg_document_versions w /\
  regulations (world R) = regulations w /\
  events R =
    [Log ("Processing: " +:+ Doc.canonical_url doc);
     Goto (Doc.canonical_url doc);
     Evaluate;
     RenderPdf;
     Upload (snapshot_path_of doc) buf (upload o);
     LogError ("Failed: " +:+ Doc.canonical_url doc +:+ " " +:+ e);
     Update (Doc.id doc) p (update_failed o)].
Proof.
  intros Hg He Hu Hp Hup. unfold loop_body, visit, on_failure, try_catch, bind.
  rewrite Hg, He. cbn. rewrite Hu, Hp.
  destruct Hup as [-> | ->]; cbn;
    destruct (update_failed o) as [[?|]|?]; repeat split; reflexivity.
Qed.

(** Every path of one iteration: a version row is inserted only right
    after the capture update of the same iteration has resolved, and at
    most once. *)
Lemma insert_only_after_update o doc w :
  let R := loop_body digest_hex wall_clock o doc w in
  inserts (events R) = [] \/
  exists evs p ru v ri evs',
    events R = evs ++ Update (Doc.id doc) p (Resolves ru) :: Insert v ri :: evs' /\
    updates evs = [] /\
    inserts (events R) = [v].
Proof.
  unfold loop_body, visit, on_failure, try_catch, bind.
  destruct (goto o) as [[]|?]; cbn;
    [|destruct (update_failed o) as [[?|]|?]; now left].
  destruct (evaluate o) as [body|?]; cbn;
    [|destruct (update_failed o) as [[?|]|?]; now left].
  destruct (unchanged doc _); cbn.
  { destruct (update_checked o) as [[?|]|?]; cbn;
      try destruct (update_failed o) as [[?|]|?]; now left. }
  destruct (pdf o) as [buf|?]; cbn;
    [|destruct (update_failed o) as [[?|]|?]; now left].
  destruct (upload o) as [[?|]|?]; cbn;
    [destruct (update_failed o) as [[?|]|?]; now left
    | |destruct (update_failed o) as [[?|]|?]; now left].
  destruct (page_title o) as [ttl|?]; cbn;
    [|destruct (update_failed o) as [[?|]|?]; now left].
  destruct (update_captured o) as [ru|?];
    [|cbn; destruct (update_failed o) as [[?|]|?]; now left].
  right.
  exists [Log ("Processing: " +:+ Doc.canonical_url doc);
          Goto (Doc.canonical_url doc); Evaluate; RenderPdf;
          Upload (snapshot_path_of doc) buf (Resolves None); Title].
  destruct ru as [err|]; cbn;
    destruct (insert_version o) as [[?|]|?]; cbn;
    try destruct (update_failed o) as [[?|]|?]; cbn;
    do 5 eexists; repeat split; reflexivity.
Qed.

(** When the promise of the capture update rejects, the [await] throws:
    no insert is issued and the handler runs. *)
Lemma rejected_update_skips_insert o doc w body buf ttl e :
  goto o = Resolves tt ->
  evaluate o = Resolves body ->
  unchanged doc (sha256 digest_hex (innerText_or_empty body)) = false ->
  pdf o = Resolves buf ->
  upload o = Resolves None ->
  page_title o = Resolves ttl ->
  update_captured o = Rejects e ->
  let R := loop_body digest_hex wall_clock o doc w in
  inserts (events R) = [] /\
  In (LogError ("Failed: " +:+ Doc.canonical_url doc +:+ " " +:+ e)) (events R) /\
  reg_document_versions (world R) = reg_document_versions w.
Proof.
  intros Hg He Hu Hp Hup Ht Hc.
  unfold loop_body, visit, on_failure, try_catch, bind.
  rewrite Hg, He. cbn. rewrite Hu, Hp, Hup. cbn. rewrite Ht, Hc. cbn.
  destruct (update_failed o) as [[?|]|?]; cbn; repeat split; auto 20 using in_eq, in_cons.
Qed.

(** The version a capture writes is positive when the stored one is
    absent or not negative; rows written by this script keep it so. *)
Lemma nextVersion_positive doc :
  (forall v, Doc.latest_version doc = Some v -> 0 <= v) ->
  0 < nextVersion doc.
Proof.
  intros H. unfold nextVersion, or_default.
  destruct (Doc.latest_version doc) as [v|]; [|destruct (truthy _); lia].
  specialize (H v eq_refl).
  destruct (v =? 0) eqn:E; destruct (truthy _); lia.
Qed.

(** *** One document *)

(** C2. A document with no stored [content_hash] is reported as changed
    by the change detector, whatever text was fetched, and the test of
    line 51 sends it to the capture branch. *)
Theorem no_stored_hash_is_changed (doc : Doc.t) (text : string) :
  Doc.content_hash doc = None ->
  changed doc (sha256 digest_hex text) = true /\
  unchanged doc (sha256 digest_hex text) = false.
Proof.
  intros H. split; [|now apply unchanged_no_digest].
  unfold changed. now rewrite H.
Qed.

(** C1. The document has a stored digest [h] that differs from the
    digest of the fetched text, and a stored version [v] (a non-zero
    number).  When every step of the capture succeeds, each row with
    the document's id gets [latest_version = v + 1], the other rows are
    as they were, and exactly one row is appended to the version table,
    for this document and with version [v + 1]. *)
Theorem changed_hash_bumps_version o doc w body buf ttl h v :
  Doc.content_hash doc = Some h ->
  h <> "" ->
  Doc.latest_version doc = Some v ->
  v <> 0 ->
  goto o = Resolves tt ->
  evaluate o = Resolves body ->
  h <> sha256 digest_hex (innerText_or_empty body) ->
  pdf o = Resolves buf ->
  upload o = Resolves None ->
  page_title o = Resolves ttl ->
  update_captured o = Resolves None ->
  insert_version o = Resolves None ->
  let R := loop_body digest_hex wall_clock o doc w in
  completion R = Normal tt /\
  Forall2
    (fun d d' =>
       if String.eqb (Doc.id d) (Doc.id doc)
       then Doc.latest_version d' = Some (v + 1)
       else d' = d)
    (reg_documents w) (reg_documents (world R)) /\
  exists row,
    reg_document_versions (world R) = reg_document_versions w ++ [row] /\
    inserts (events R) = [row] /\
    Version.reg_document_id row = Doc.id doc /\
    Version.version row = v + 1.
Proof.
  intros Hh Hne Hv Hv0 Hg He Hd Hp Hup Ht Hc Hi R.
  assert (Hn : nextVersion doc = v + 1).
  { unfold nextVersion, truthy, or_default. rewrite Hh, Hv.
    apply String.eqb_neq in Hne. rewrite Hne. simpl.
    apply Z.eqb_neq in Hv0. now rewrite Hv0. }
  destruct (loop_body_captured o doc w body buf ttl None None)
    as (HR & Hrows & Hvers & _ & Hevs); auto.
  { eapply unchanged_other_digest; eauto. }
  fold R in HR, Hrows, Hvers, Hevs. split; [exact HR|]. split.
  - rewrite Hrows. apply update_where_id_Forall2; intros d Hd'.
    + apply String.eqb_neq in Hd'. now rewrite Hd'.
    + apply String.eqb_eq in Hd'. rewrite Hd'. simpl.
      unfold captured_patch. simpl. now rewrite Hn.
  - eexists. split; [exact Hvers|]. rewrite Hevs. simpl.
    repeat split; try reflexivity. exact Hn.
Qed.

(** C3. The stored digest equals the digest of the fetched text and the
    row update of lines 53-56 resolves.  Then the only update issued
    carries [status = active] and [last_checked_at] and nothing else;
    every row keeps its id, address, [latest_version], [content_hash],
    [full_text], [title], [snapshot_path], [retrieved_at] and
    [updated_at]; when the store does the update, the document's rows
    are [active] with the new [last_checked_at]; no version row is
    inserted and nothing is uploaded. *)
Theorem same_hash_only_marks_checked o doc w body r :
  goto o = Resolves tt ->
  evaluate o = Resolves body ->
  Doc.content_hash doc = Some (sha256 digest_hex (innerText_or_empty body)) ->
  update_checked o = Resolves r ->
  let R := loop_body digest_hex wall_clock o doc w in
  let now := wall_clock (clock w) in
  completion R = Normal tt /\
  updates (events R) =
    [(Doc.id doc,
      {| Patch.title := None;
         Patch.status := Some Status.active;
         Patch.latest_version := None;
         Patch.snapshot_path := None;
         Patch.full_text := None;
         Patch.content_hash := None;
         Patch.retrieved_at := None;
         Patch.last_checked_at := Some now;
         Patch.updated_at := None |})] /\
  Forall2 same_but_check (reg_documents w) (reg_documents (world R)) /\
  (r = None ->
   Forall2
     (fun d d' =>
        Doc.id d = Doc.id doc ->
        Doc.status d' = Status.active /\ Doc.last_checked_at d' = Some now)
     (reg_documents w) (reg_documents (world R))) /\
  reg_document_versions (world R) = reg_document_versions w /\
  inserts (events R) = [] /\
  regulations (world R) = regulations w /\
  uploads (events R) = [].
Proof.
  intros Hg He Hh Hc R now.
  assert (HR : R = _) by (apply (loop_body_checked o doc w body r); auto using
    unchanged_same_digest).
  rewrite HR. cbn [completion world events updates inserts uploads].
  repeat split.
  - destruct r; cbn [reg_documents set_reg_documents tick].
    + apply Forall2_same. now intros d.
    + apply update_where_id_Forall2; intros d _; now repeat split.
  - intros ->. cbn [reg_documents set_reg_documents tick].
    apply update_where_id_Forall2; intros d Hd; [contradiction | now split].
  - now destruct r.
  - now destruct r.
Qed.

(** C7, as the code has it.  The document has no stored digest and
    every step of the capture succeeds.  Each row with the document's id
    becomes [active] with [content_hash] the digest [H1] of the fetched
    text and [latest_version = n], where [n] is the stored
    [latest_version] when that is a non-zero number and 1 otherwise;
    one row is appended to the version table, with version [n] and
    digest [H1]. *)
Theorem first_capture_reuses_stored_version o doc w body buf ttl :
  Doc.content_hash doc = None ->
  goto o = Resolves tt ->
  evaluate o = Resolves body ->
  pdf o = Resolves buf ->
  upload o = Resolves None ->
  page_title o = Resolves ttl ->
  update_captured o = Resolves None ->
  insert_version o = Resolves None ->
  let R := loop_body digest_hex wall_clock o doc w in
  let H1 := sha256 digest_hex (innerText_or_empty body) in
  let n := or_default (Doc.latest_version doc) 1 in
  completion R = Normal tt /\
  Forall2
    (fun d d' =>
       if String.eqb (Doc.id d) (Doc.id doc)
       then Doc.status d' = Status.active /\
            Doc.latest_version d' = Some n /\
            Doc.content_hash d' = Some H1
       else d' = d)
    (reg_documents w) (reg_documents (world R)) /\
  (exists row,
     reg_document_versions (world R) = reg_document_versions w ++ [row] /\
     inserts (events R) = [row] /\
     Version.reg_document_id row = Doc.id doc /\
     Version.version row = n /\
     Version.content_hash row = H1) /\
  (Doc.latest_version doc = None \/ Doc.latest_version doc = Some 0 \/
   Doc.latest_version doc = Some 1 -> n = 1).
Proof.
  intros Hh Hg He Hp Hup Ht Hc Hi R H1 n.
  assert (Hn : nextVersion doc = n).
  { unfold nextVersion. now rewrite Hh. }
  destruct (loop_body_captured o doc w body buf ttl None None)
    as (HR & Hrows & Hvers & _ & Hevs); auto using unchanged_no_digest.
  fold R in HR, Hrows, Hvers, Hevs. split; [exact HR|]. split; [|split].
  - rewrite Hrows. apply update_where_id_Forall2; intros d Hd.
    + apply String.eqb_neq in Hd. now rewrite Hd.
    + apply String.eqb_eq in Hd. rewrite Hd. simpl.
      unfold captured_patch. simpl. now rewrite Hn.
  - eexists. split; [exact Hvers|]. rewrite Hevs. simpl.
    repeat split; try reflexivity. exact Hn.
  - subst n. now intros [-> | [-> | ->]].
Qed.

(** C4, what the code does.  On the capture path the document-row update
    resolves with a refusal [err] in its [error] field; line 88 drops
    the answer, so the insert of lines 91-98 is issued next and, when
    the store does it, a version row is written although no document
    row was updated. *)
Theorem version_row_written_after_refused_update o doc w body buf ttl err :
  goto o = Resolves tt ->
  evaluate o = Resolves body ->
  unchanged doc (sha256 digest_hex (innerText_or_empty body)) = false ->
  pdf o = Resolves buf ->
  upload o = Resolves None ->
  page_title o = Resolves ttl ->
  update_captured o = Resolves (Some err) ->
  insert_version o = Resolves None ->
  let R := loop_body digest_hex wall_clock o doc w in
  completion R = Normal tt /\
  reg_documents (world R) = reg_documents w /\
  exists p v evs evs',
    reg_document_versions (world R) = reg_document_versions w ++ [v] /\
    Version.reg_document_id v = Doc.id doc /\
    events R =
      evs ++ [Update (Doc.id doc) p (Resolves (Some err)); Insert v (Resolves None)]
          ++ evs'.
Proof.
  intros Hg He Hu Hp Hup Ht Hc Hi R.
  destruct (loop_body_captured o doc w body buf ttl (Some err) None)
    as (HR & Hrows & Hvers & _ & Hevs); auto.
  fold R in HR, Hrows, Hvers, Hevs. repeat split; auto.
  do 2 eexists.
  exists [Log ("Processing: " +:+ Doc.canonical_url doc);
          Goto (Doc.canonical_url doc); Evaluate; RenderPdf;
          Upload (snapshot_path_of doc) buf (Resolves None); Title].
  eexists. split; [exact Hvers|]. split; [reflexivity|]. rewrite Hevs. reflexivity.
Qed.

(** C5, what the code does.  On the capture path a write resolves with
    a refusal in its [error] field (the row update, the insert, or
    both).  The answers are dropped: nothing is thrown, the handler does
    not run (no error is logged, no [status = error] update is issued),
    and no row becomes [error]. *)
Theorem refused_write_is_not_caught o doc w body buf ttl ru ri :
  goto o = Resolves tt ->
  evaluate o = Resolves body ->
  unchanged doc (sha256 digest_hex (innerText_or_empty body)) = false ->
  pdf o = Resolves buf ->
  upload o = Resolves None ->
  page_title o = Resolves ttl ->
  update_captured o = Resolves ru ->
  insert_version o = Resolves ri ->
  ru <> None \/ ri <> None ->
  let R := loop_body digest_hex wall_clock o doc w in
  completion R = Normal tt /\
  Forall
    (fun ev =>
       match ev with
       | LogError _ => False
       | Update _ p _ => Patch.status p <> Some Status.error
       | _ => True
       end)
    (events R) /\
  Forall2 (fun d d' => Doc.status d' = Status.error -> Doc.status d = Status.error)
    (reg_documents w) (reg_documents (world R)).
Proof.
  intros Hg He Hu Hp Hup Ht Hc Hi _ R.
  destruct (loop_body_captured o doc w body buf ttl ru ri)
    as (HR & Hrows & _ & _ & Hevs); auto.
  fold R in HR, Hrows, Hevs. split; [exact HR|]. split.
  - rewrite Hevs. repeat constructor. discriminate.
  - rewrite Hrows. destruct ru.
    + apply Forall2_same. auto.
    + apply update_where_id_Forall2; [auto|]. intros d _. discriminate.
Qed.

(** C6. The snapshot upload fails (the storage service refuses it, or
    its promise rejects).  Then the capture update and the insert are
    never issued: the only row update is the handler's, which carries
    [status = error], [last_checked_at] and [updated_at]; every row
    keeps its title, [latest_version], [snapshot_path], [full_text],
    [content_hash] and [retrieved_at]; the version table and the bucket
    are as they were; and when the store does the handler's update, the
    document's rows are [error]. *)
Theorem upload_failure_aborts_capture o doc w body buf e :
  goto o = Resolves tt ->
  evaluate o = Resolves body ->
  unchanged doc (sha256 digest_hex (innerText_or_empty body)) = false ->
  pdf o = Resolves buf ->
  upload o = Resolves (Some e) \/ upload o = Rejects e ->
  let R := loop_body digest_hex wall_clock o doc w in
  let t1 := wall_clock (clock w) in
  let t2 := wall_clock (S (clock w)) in
  updates (events R) =
    [(Doc.id doc,
      {| Patch.title := None;
         Patch.status := Some Status.error;
         Patch.latest_version := None;
         Patch.snapshot_path := None;
         Patch.full_text := None;
         Patch.content_hash := None;
         Patch.retrieved_at := None;
         Patch.last_checked_at := Some t1;
         Patch.updated_at := Some t2 |})] /\
  inserts (events R) = [] /\
  Forall2 same_capture (reg_documents w) (reg_documents (world R)) /\
  reg_document_versions (world R) = reg_document_versions w /\
  regulations (world R) = regulations w /\
  (update_failed o = Resolves None ->
   completion R = Normal tt /\
   Forall2
     (fun d d' => if String.eqb (Doc.id d) (Doc.id doc)
                  then Doc.status d' = Status.error
                  else d' = d)
     (reg_documents w) (reg_documents (world R))).
Proof.
  intros Hg He Hu Hp Hup R t1 t2.
  destruct (loop_body_upload_failed o doc w body buf e)
    as (HR & Hrows & Hvers & Hreg & Hevs); auto.
  fold R in HR, Hrows, Hvers, Hreg, Hevs. rewrite Hevs.
  repeat split; auto.
  - rewrite Hrows. destruct (update_failed o) as [[err|]|e'];
      try (apply Forall2_same; intros d; now repeat split).
    apply update_where_id_Forall2; intros d _; now repeat split.
  - rewrite HR, H. reflexivity.
  - rewrite Hrows, H. apply update_where_id_Forall2; intros d Hd.
    + apply String.eqb_neq in Hd. now rewrite Hd.
    + apply String.eqb_eq in Hd. now rewrite Hd.
Qed.

(** *** The batch *)

(** A loop whose handler's update never rejects runs through the
    whole batch. *)
Lemma for_of_runs_through answers i docs w :
  (forall j e, update_failed (answers j) <> Rejects e) ->
  completion (for_of digest_hex wall_clock answers i docs w) = Normal tt /\
  visited (events (for_of digest_hex wall_clock answers i docs w)) =
    map Doc.canonical_url docs.
Proof.
  intros Hh. revert i w. induction docs as [|doc rest IH]; intros i w.
  - now split.
  - assert (HR : completion (loop_body digest_hex wall_clock (answers i) doc w)
                 = Normal tt).
    { destruct (update_failed (answers i)) as [r|e] eqn:E.
      - eapply loop_body_completion; eauto.
      - now destruct (Hh i e). }
    rewrite for_of_cons by assumption. cbn [completion events].
    destruct (IH (S i) (world (loop_body digest_hex wall_clock (answers i) doc w)))
      as [Hc Hv].
    split; [exact Hc|].
    rewrite visited_app, loop_body_visited, Hv. reflexivity.
Qed.

(** C8. Take any batch and any document [doc] in it.  Whatever the
    outside world answers to the steps of each visit (navigation,
    extraction, rendering, upload, title, row update, insert: resolved,
    refused or rejected), as long as the handler's own status update
    does not reject, the loop ends normally and has navigated, in
    order, to the documents before [doc], to [doc], and to every
    document after it. *)
Theorem failures_do_not_stop_the_batch answers i before doc after w :
  (forall j e, update_failed (answers j) <> Rejects e) ->
  let R := for_of digest_hex wall_clock answers i (before ++ doc :: after) w in
  completion R = Normal tt /\
  visited (events R) =
    map Doc.canonical_url before
      ++ Doc.canonical_url doc :: map Doc.canonical_url after.
Proof.
  intros Hh R.
  destruct (for_of_runs_through answers i (before ++ doc :: after) w Hh)
    as [Hc Hv].
  split; [exact Hc|]. subst R. rewrite Hv, map_app. reflexivity.
Qed.

(** What [main] navigates to is a prefix of what the query returned. *)
Lemma main_visited_prefix r w :
  exists k,
    visited (events (main digest_hex wall_clock r w)) =
    map Doc.canonical_url (firstn k (pending_rows (reg_documents w))).
Proof.
  unfold main, bind, select_eq_status_pending_limit, await.
  remember (pending_rows (reg_documents w)) as docs eqn:D. clear D.
  destruct (select_pending r) as [[err|]|e]; cbn;
    try (exists 0%nat; reflexivity).
  destruct docs as [|doc rest]; [exists 0%nat; reflexivity|].
  cbv beta iota. remember (doc :: rest) as batch eqn:B. clear B.
  destruct (launch r); cbn; [|exists 0%nat; reflexivity].
  destruct (new_page r); cbn; [|exists 0%nat; reflexivity].
  destruct (for_of_visited_prefix (visits r) 0 batch w) as [k Hk].
  exists k.
  destruct (for_of digest_hex wall_clock (visits r) 0 batch w) as [[[]|e] w1 evs1];
    cbn in *; rewrite ?visited_app; cbn; rewrite ?app_nil_r; exact Hk.
Qed.

(** C9. The query returns at most 20 rows, all of them pending, and
    whatever the outside world answers, [main] navigates to a prefix of
    their addresses: at most 20 documents are attempted. *)
Theorem batch_is_capped r w :
  (length (pending_rows (reg_documents w)) <= 20)%nat /\
  Forall (fun d => Doc.status d = Status.pending) (pending_rows (reg_documents w)) /\
  (exists k,
     visited (events (main digest_hex wall_clock r w)) =
     map Doc.canonical_url (firstn k (pending_rows (reg_documents w)))) /\
  (length (visited (events (main digest_hex wall_clock r w))) <= 20)%nat.
Proof.
  assert (Hlen : (length (pending_rows (reg_documents w)) <= 20)%nat)
    by apply firstn_le_length.
  split; [exact Hlen|]. split; [|split].
  - unfold pending_rows. apply Forall_take. apply List.Forall_forall.
    intros d Hd. apply List.filter_In in Hd as [_ Hd].
    unfold is_pending in Hd. now destruct (Doc.status d).
  - apply main_visited_prefix.
  - destruct (main_visited_prefix r w) as [k ->].
    rewrite length_map. etransitivity; [|exact Hlen].
    rewrite length_firstn. lia.
Qed.

(** When the query, the browser launch and the handler's updates do
    not fail, [main] navigates to every row the query returned. *)
Lemma main_visits_every_pending_row r w :
  select_pending r = Resolves None ->
  launch r = Resolves tt ->
  new_page r = Resolves tt ->
  (forall j e, update_failed (visits r j) <> Rejects e) ->
  visited (events (main digest_hex wall_clock r w)) =
  map Doc.canonical_url (pending_rows (reg_documents w)).
Proof.
  intros Hs Hl Hn Hh.
  unfold main, bind, select_eq_status_pending_limit, await.
  remember (pending_rows (reg_documents w)) as docs eqn:D. clear D.
  rewrite Hs. cbn. destruct docs as [|doc rest]; [reflexivity|].
  cbv beta iota. remember (doc :: rest) as batch eqn:B. clear B.
  rewrite Hl, Hn. cbn.
  destruct (for_of_runs_through (visits r) 0 batch w Hh) as [Hc Hv].
  destruct (for_of digest_hex wall_clock (visits r) 0 batch w) as [c w1 evs1].
  cbn in *. subst c. cbn. rewrite visited_app. cbn. now rewrite app_nil_r.
Qed.


(** C10. A failure [e] reaches the handler and the store refuses the
    handler's status update.  The refusal is dropped: the iteration
    ends normally, the last call logged is the refused update carrying
    [status = error], the rows are as the failed [try] left them (as
    they were before the visit when the failure came before any row
    update was issued, so a pending document is still pending), and the
    loop goes on with the next document. *)
Theorem refused_error_update_is_ignored answers i doc rest w e err :
  completion (visit digest_hex wall_clock (answers i) doc w) = Throw e ->
  update_failed (answers i) = Resolves (Some err) ->
  let V := visit digest_hex wall_clock (answers i) doc w in
  let R := loop_body digest_hex wall_clock (answers i) doc w in
  let R' := for_of digest_hex wall_clock answers (S i) rest (world R) in
  completion R = Normal tt /\
  (exists evs p,
     events R = evs ++ [Update (Doc.id doc) p (Resolves (Some err))] /\
     Patch.status p = Some Status.error) /\
  reg_documents (world R) = reg_documents (world V) /\
  reg_document_versions (world R) = reg_document_versions (world V) /\
  (updates (events V) = [] -> reg_documents (world R) = reg_documents w) /\
  for_of digest_hex wall_clock answers i (doc :: rest) w =
    {| completion := completion R';
       world := world R';
       events := events R ++ events R' |}.
Proof.
  intros HV Hf V R R'.
  assert (HR : R = _) by exact (loop_body_caught _ _ _ _ HV).
  fold V in HR. rewrite Hf in HR.
  assert (Hc : completion R = Normal tt) by now rewrite HR.
  assert (Hrows : reg_documents (world R) = reg_documents (world V))
    by now rewrite HR.
  split; [exact Hc|]. split; [|split; [exact Hrows|split; [|split]]].
  - rewrite HR. cbn [events].
    exists (Log ("Processing: " +:+ Doc.canonical_url doc)
              :: events V
              ++ [LogError ("Failed: " +:+ Doc.canonical_url doc +:+ " " +:+ e)]).
    exists (failed_patch (wall_clock (clock (world V)))
              (wall_clock (S (clock (world V))))).
    split; [|reflexivity].
    simpl. rewrite <- List.app_assoc. reflexivity.
  - now rewrite HR.
  - intros Hu. rewrite Hrows. subst V.
    destruct (faithful_visit (answers i) doc w) as [-> _].
    now apply replay_documents_no_updates.
  - now apply for_of_cons.
Qed.

End Properties.

(** ** The statements on sample data *)

Lemma sample_digest_length text : String.length (Sample.digest text) = 64%nat.
Proof.
  unfold Sample.digest.
  destruct (String.eqb text Sample.text_v1); [reflexivity|].
  destruct (String.eqb text Sample.text_v2); reflexivity.
Qed.

(** Closes a side condition by evaluation. *)
Ltac evaluate_it :=
  first [ reflexivity
        | vm_compute; reflexivity
        | apply String.eqb_neq; vm_compute; reflexivity
        | discriminate
        | vm_compute; discriminate ].

(** C2 on a row that was never fetched. *)
Lemma no_stored_hash_is_changed_witness :
  Doc.content_hash Sample.fresh = None /\
  changed Sample.fresh (sha256 Sample.digest Sample.text_v1) = true /\
  unchanged Sample.fresh (sha256 Sample.digest Sample.text_v1) = false.
Proof.
  split; [reflexivity|].
  apply (no_stored_hash_is_changed Sample.digest Sample.fresh Sample.text_v1).
  reflexivity.
Defined.

(** C1 on a row at version 3 whose page now shows the amended text. *)
Lemma changed_hash_bumps_version_witness :
  Doc.content_hash Sample.seen = Some Sample.H1 /\
  Sample.H1 <> "" /\
  Doc.latest_version Sample.seen = Some 3 /\
  3 <> 0 /\
  Sample.H1 <> sha256 Sample.digest (innerText_or_empty (Some Sample.text_v2)) /\
  let R := loop_body Sample.digest Sample.wall_clock (Sample.smooth Sample.text_v2)
             Sample.seen (Sample.store [Sample.fresh; Sample.seen]) in
  completion R = Normal tt /\
  Forall2
    (fun d d' =>
       if String.eqb (Doc.id d) (Doc.id Sample.seen)
       then Doc.latest_version d' = Some (3 + 1)
       else d' = d)
    [Sample.fresh; Sample.seen] (reg_documents (world R)) /\
  exists row,
    reg_document_versions (world R) = [] ++ [row] /\
    inserts (events R) = [row] /\
    Version.reg_document_id row = Doc.id Sample.seen /\
    Version.version row = 3 + 1.
Proof.
  do 5 (split; [evaluate_it|]).
  apply (changed_hash_bumps_version Sample.digest Sample.wall_clock
           (Sample.smooth Sample.text_v2) Sample.seen
           (Sample.store [Sample.fresh; Sample.seen])
           (Some Sample.text_v2) "%PDF-1.4" "Regulation" Sample.H1 3);
    evaluate_it.
Defined.

(** C3 on a row whose page still shows the text it was captured with. *)
Lemma same_hash_only_marks_checked_witness :
  Doc.content_hash Sample.seen =
    Some (sha256 Sample.digest (innerText_or_empty (Some Sample.text_v1))) /\
  let R := loop_body Sample.digest Sample.wall_clock (Sample.smooth Sample.text_v1)
             Sample.seen (Sample.store [Sample.fresh; Sample.seen]) in
  let now := Sample.wall_clock 0 in
  completion R = Normal tt /\
  updates (events R) =
    [(Doc.id Sample.seen,
      {| Patch.title := None;
         Patch.status := Some Status.active;
         Patch.latest_version := None;
         Patch.snapshot_path := None;
         Patch.full_text := None;
         Patch.content_hash := None;
         Patch.retrieved_at := None;
         Patch.last_checked_at := Some now;
         Patch.updated_at := None |})] /\
  Forall2 same_but_check [Sample.fresh; Sample.seen] (reg_documents (world R)) /\
  (@None Exn = None ->
   Forall2
     (fun d d' =>
        Doc.id d = Doc.id Sample.seen ->
        Doc.status d' = Status.active /\ Doc.last_checked_at d' = Some now)
     [Sample.fresh; Sample.seen] (reg_documents (world R))) /\
  reg_document_versions (world R) = [] /\
  inserts (events R) = [] /\
  regulations (world R) = ∅ /\
  uploads (events R) = [].
Proof.
  split; [evaluate_it|].
  apply (same_hash_only_marks_checked Sample.digest sample_digest_length
           Sample.wall_clock (Sample.smooth Sample.text_v1) Sample.seen
           (Sample.store [Sample.fresh; Sample.seen]) (Some Sample.text_v1) None);
    evaluate_it.
Defined.

(** C7, as the code has it, on a row that was never fetched. *)
Lemma first_capture_reuses_stored_version_witness :
  Doc.content_hash Sample.fresh = None /\
  let R := loop_body Sample.digest Sample.wall_clock (Sample.smooth Sample.text_v1)
             Sample.fresh (Sample.store [Sample.fresh; Sample.seen]) in
  let H1 := sha256 Sample.digest (innerText_or_empty (Some Sample.text_v1)) in
  let n := or_default (Doc.latest_version Sample.fresh) 1 in
  completion R = Normal tt /\
  Forall2
    (fun d d' =>
       if String.eqb (Doc.id d) (Doc.id Sample.fresh)
       then Doc.status d' = Status.active /\
            Doc.latest_version d' = Some n /\
            Doc.content_hash d' = Some H1
       else d' = d)
    [Sample.fresh; Sample.seen] (reg_documents (world R)) /\
  (exists row,
     reg_document_versions (world R) = [] ++ [row] /\
     inserts (events R) = [row] /\
     Version.reg_document_id row = Doc.id Sample.fresh /\
     Version.version row = n /\
     Version.content_hash row = H1) /\
  (Doc.latest_version Sample.fresh = None \/ Doc.latest_version Sample.fresh = Some 0 \/
   Doc.latest_version Sample.fresh = Some 1 -> n = 1).
Proof.
  split; [evaluate_it|].
  apply (first_capture_reuses_stored_version Sample.digest Sample.wall_clock
           (Sample.smooth Sample.text_v1) Sample.fresh
           (Sample.store [Sample.fresh; Sample.seen])
           (Some Sample.text_v1) "%PDF-1.4" "Regulation");
    evaluate_it.
Defined.

(** C7 as stated fails on a row whose digest was cleared while its
    version stayed at 3: the text hashes to [H1], every step succeeds, and
    the row and the version row carry version 3, not 1. *)
Lemma first_capture_of_reset_row_is_not_version_1 :
  Doc.content_hash Sample.reset = None /\
  sha256 Sample.digest Sample.text_v1 = Sample.H1 /\
  completion Sample.reset_capture = Normal tt /\
  map Doc.latest_version (reg_documents (world Sample.reset_capture)) = [Some 3] /\
  map Version.version (reg_document_versions (world Sample.reset_capture)) = [3] /\
  ~ (map Doc.latest_version (reg_documents (world Sample.reset_capture)) = [Some 1] /\
     map Version.version (reg_document_versions (world Sample.reset_capture)) = [1]).
Proof.
  repeat split; try (vm_compute; reflexivity).
  vm_compute. intros [E _]. discriminate E.
Qed.

(** C4 on a row that was never fetched, when the store refuses the
    document-row update: the row is untouched and a version row exists. *)
Lemma version_row_written_after_refused_update_witness :
  unchanged Sample.fresh (sha256 Sample.digest (innerText_or_empty (Some Sample.text_v1)))
    = false /\
  update_captured (Sample.update_refused Sample.text_v1)
    = Resolves (Some "permission denied") /\
  insert_version (Sample.update_refused Sample.text_v1) = Resolves None /\
  let R := loop_body Sample.digest Sample.wall_clock
             (Sample.update_refused Sample.text_v1) Sample.fresh
             (Sample.store [Sample.fresh]) in
  completion R = Normal tt /\
  reg_documents (world R) = [Sample.fresh] /\
  exists p v evs evs',
    reg_document_versions (world R) = [] ++ [v] /\
    Version.reg_document_id v = Doc.id Sample.fresh /\
    events R =
      evs ++ [Update (Doc.id Sample.fresh) p (Resolves (Some "permission denied"));
              Insert v (Resolves None)]
          ++ evs'.
Proof.
  do 3 (split; [evaluate_it|]).
  apply (version_row_written_after_refused_update Sample.digest Sample.wall_clock
           (Sample.update_refused Sample.text_v1)
           Sample.fresh (Sample.store [Sample.fresh])
           (Some Sample.text_v1) "%PDF-1.4" "Regulation" "permission denied");
    evaluate_it.
Defined.

(** C5 on a row at version 3 whose page shows the amended text, when the
    store refuses the insert: the row is rewritten to version 4, nothing
    is caught, and the row is not marked [error]. *)
Lemma refused_write_is_not_caught_witness :
  unchanged Sample.seen (sha256 Sample.digest (innerText_or_empty (Some Sample.text_v2)))
    = false /\
  update_captured (Sample.insert_refused Sample.text_v2) = Resolves None /\
  insert_version (Sample.insert_refused Sample.text_v2)
    = Resolves (Some "duplicate key value") /\
  (@None Exn <> None \/ Some "duplicate key value" <> @None Exn) /\
  let R := loop_body Sample.digest Sample.wall_clock
             (Sample.insert_refused Sample.text_v2) Sample.seen
             (Sample.store [Sample.seen]) in
  completion R = Normal tt /\
  Forall
    (fun ev =>
       match ev with
       | LogError _ => False
       | Update _ p _ => Patch.status p <> Some Status.error
       | _ => True
       end)
    (events R) /\
  Forall2 (fun d d' => Doc.status d' = Status.error -> Doc.status d = Status.error)
    [Sample.seen] (reg_documents (world R)).
Proof.
  do 3 (split; [evaluate_it|]).
  split; [right; discriminate|].
  apply (refused_write_is_not_caught Sample.digest Sample.wall_clock
           (Sample.insert_refused Sample.text_v2)
           Sample.seen (Sample.store [Sample.seen])
           (Some Sample.text_v2) "%PDF-1.4" "Regulation" None
           (Some "duplicate key value"));
    first [evaluate_it | right; discriminate].
Defined.

(** The same run, evaluated: the document row says version 4 and no
    version row exists. *)
Example refused_insert_leaves_no_version_row :
  let R := loop_body Sample.digest Sample.wall_clock
             (Sample.insert_refused Sample.text_v2) Sample.seen
             (Sample.store [Sample.seen]) in
  completion R = Normal tt /\
  map Doc.status (reg_documents (world R)) = [Status.active] /\
  map Doc.latest_version (reg_documents (world R)) = [Some 4] /\
  reg_document_versions (world R) = [].
Proof. cbv zeta. repeat split; vm_compute; reflexivity. Qed.

(** C6 on a row at version 3 whose page shows the amended text, when the
    storage service refuses the snapshot. *)
Lemma upload_failure_aborts_capture_witness :
  unchanged Sample.seen (sha256 Sample.digest (innerText_or_empty (Some Sample.text_v2)))
    = false /\
  (upload (Sample.upload_refused Sample.text_v2) = Resolves (Some "Payload too large") \/
   upload (Sample.upload_refused Sample.text_v2) = Rejects "Payload too large") /\
  let R := loop_body Sample.digest Sample.wall_clock
             (Sample.upload_refused Sample.text_v2) Sample.seen
             (Sample.store [Sample.fresh; Sample.seen]) in
  let t1 := Sample.wall_clock 0 in
  let t2 := Sample.wall_clock 1 in
  updates (events R) =
    [(Doc.id Sample.seen,
      {| Patch.title := None;
         Patch.status := Some Status.error;
         Patch.latest_version := None;
         Patch.snapshot_path := None;
         Patch.full_text := None;
         Patch.content_hash := None;
         Patch.retrieved_at := None;
         Patch.last_checked_at := Some t1;
         Patch.updated_at := Some t2 |})] /\
  inserts (events R) = [] /\
  Forall2 same_capture [Sample.fresh; Sample.seen] (reg_documents (world R)) /\
  reg_document_versions (world R) = [] /\
  regulations (world R) = ∅ /\
  (update_failed (Sample.upload_refused Sample.text_v2) = Resolves None ->
   completion R = Normal tt /\
   Forall2
     (fun d d' => if String.eqb (Doc.id d) (Doc.id Sample.seen)
                  then Doc.status d' = Status.error
                  else d' = d)
     [Sample.fresh; Sample.seen] (reg_documents (world R))).
Proof.
  split; [evaluate_it|]. split; [left; reflexivity|].
  apply (upload_failure_aborts_capture Sample.digest Sample.wall_clock
           (Sample.upload_refused Sample.text_v2)
           Sample.seen (Sample.store [Sample.fresh; Sample.seen])
           (Some Sample.text_v2) "%PDF-1.4" "Payload too large");
    first [evaluate_it | left; reflexivity].
Defined.

(** C8 on three rows, the second of which cannot be reached. *)
Lemma failures_do_not_stop_the_batch_witness :
  (forall j e, update_failed (Sample.second_times_out j) <> Rejects e) /\
  let R := for_of Sample.digest Sample.wall_clock Sample.second_times_out 0
             ([Sample.fresh] ++ Sample.seen :: [Sample.reset])
             (Sample.store [Sample.fresh; Sample.seen; Sample.reset]) in
  completion R = Normal tt /\
  visited (events R) =
    map Doc.canonical_url [Sample.fresh]
      ++ Doc.canonical_url Sample.seen :: map Doc.canonical_url [Sample.reset].
Proof.
  assert (H : forall j e, update_failed (Sample.second_times_out j) <> Rejects e).
  { intros [|[|j]] e; discriminate. }
  split; [exact H|].
  apply (failures_do_not_stop_the_batch Sample.digest Sample.wall_clock
           Sample.second_times_out 0 [Sample.fresh] Sample.seen [Sample.reset]
           (Sample.store [Sample.fresh; Sample.seen; Sample.reset]) H).
Defined.

(** The same run, evaluated: the second row is marked [error], the third
    is captured all the same. *)
Example timed_out_row_is_marked_error :
  let R := for_of Sample.digest Sample.wall_clock Sample.second_times_out 0
             [Sample.fresh; Sample.seen; Sample.reset]
             (Sample.store [Sample.fresh; Sample.seen; Sample.reset]) in
  map Doc.status (reg_documents (world R)) =
    [Status.active; Status.error; Status.active] /\
  map Version.reg_document_id (reg_document_versions (world R)) = ["d1"; "d3"].
Proof. cbv zeta. split; vm_compute; reflexivity. Qed.

(** C9 on 25 pending rows: 20 are navigated to. *)
Example twenty_of_twenty_five :
  let R := main Sample.digest Sample.wall_clock (Sample.run (fun _ => Sample.smooth Sample.text_v1))
             (Sample.store Sample.many_pending) in
  length (List.filter is_pending Sample.many_pending) = 25%nat /\
  length (visited (events R)) = 20%nat /\
  length (List.filter is_pending (reg_documents (world R))) = 5%nat.
Proof. cbv zeta. repeat split; vm_compute; reflexivity. Qed.

(** C10 on two rows whose pages cannot be reached while the store
    refuses the handler's update: the first row is still pending and the
    loop goes on to the second. *)
Lemma refused_error_update_is_ignored_witness :
  completion
    (visit Sample.digest Sample.wall_clock (Sample.unreachable_and_refused 0)
       Sample.fresh (Sample.store [Sample.fresh; Sample.seen]))
    = Throw "Timeout 60000ms exceeded" /\
  update_failed (Sample.unreachable_and_refused 0) = Resolves (Some "permission denied") /\
  let w := Sample.store [Sample.fresh; Sample.seen] in
  let V := visit Sample.digest Sample.wall_clock (Sample.unreachable_and_refused 0)
             Sample.fresh w in
  let R := loop_body Sample.digest Sample.wall_clock (Sample.unreachable_and_refused 0)
             Sample.fresh w in
  let R' := for_of Sample.digest Sample.wall_clock Sample.unreachable_and_refused 1
              [Sample.seen] (world R) in
  completion R = Normal tt /\
  (exists evs p,
     events R = evs ++ [Update (Doc.id Sample.fresh) p (Resolves (Some "permission denied"))] /\
     Patch.status p = Some Status.error) /\
  reg_documents (world R) = reg_documents (world V) /\
  reg_document_versions (world R) = reg_document_versions (world V) /\
  (updates (events V) = [] -> reg_documents (world R) = reg_documents w) /\
  for_of Sample.digest Sample.wall_clock Sample.unreachable_and_refused 0
    (Sample.fresh :: [Sample.seen]) w =
    {| completion := completion R';
       world := world R';
       events := events R ++ events R' |}.
Proof.
  do 2 (split; [evaluate_it|]).
  apply (refused_error_update_is_ignored Sample.digest Sample.wall_clock
           Sample.unreachable_and_refused 0 Sample.fresh [Sample.seen]
           (Sample.store [Sample.fresh; Sample.seen])
           "Timeout 60000ms exceeded" "permission denied");
    evaluate_it.
Defined.

(** The same run, evaluated: both rows are still pending afterwards. *)
Example refused_error_update_leaves_rows_pending :
  let R := for_of Sample.digest Sample.wall_clock Sample.unreachable_and_refused 0
             [Sample.fresh; Sample.seen] (Sample.store [Sample.fresh; Sample.seen]) in
  completion R = Normal tt /\
  reg_documents (world R) = [Sample.fresh; Sample.seen] /\
  visited (events R) = ["https://example.org/d1"; "https://example.org/d2"].
Proof. cbv zeta. repeat split; vm_compute; reflexivity. Qed.


(** ** More of the script: the run as a whole *)

(** *** Rules for [Emits], one per construct *)

Lemma emits_ret {A} P (a : A) : Emits P (ret a).
Proof. intros w. constructor. Qed.

Lemma emits_throw {A} P e : Emits P (@throw A e).
Proof. intros w. constructor. Qed.

Lemma emits_bind {A B} P (m : Js A) (k : A -> Js B) :
  Emits P m -> (forall a, Emits P (k a)) -> Emits P (bind m k).
Proof.
  intros Hm Hk w. specialize (Hm w). unfold bind.
  destruct (m w) as [[a|e] w1 evs1]; simpl in *; [|exact Hm].
  specialize (Hk a w1). destruct (k a w1) as [c w2 evs2]; simpl in *.
  apply Forall_app. now split.
Qed.

Lemma emits_try_catch {A} P (m : Js A) (h : Exn -> Js A) :
  Emits P m -> (forall e, Emits P (h e)) -> Emits P (try_catch m h).
Proof.
  intros Hm Hh w. specialize (Hm w). unfold try_catch.
  destruct (m w) as [[a|e] w1 evs1]; simpl in *; [exact Hm|].
  specialize (Hh e w1). destruct (h e w1) as [c w2 evs2]; simpl in *.
  apply Forall_app. now split.
Qed.

Lemma emits_console_log (P : Event -> Prop) line : P (Log line) -> Emits P (console_log line).
Proof. intros H w. now repeat constructor. Qed.

Lemma emits_console_error (P : Event -> Prop) line :
  P (LogError line) -> Emits P (console_error line).
Proof. intros H w. now repeat constructor. Qed.

Lemma emits_await {A} (P : Event -> Prop) ev (o : Outcome A) : P ev -> Emits P (await ev o).
Proof. intros H w. now repeat constructor. Qed.

Lemma emits_update_eq_id (P : Event -> Prop) o p id :
  P (Update id p o) -> Emits P (update_eq_id o p id).
Proof. intros H w. now repeat constructor. Qed.

Lemma emits_insert (P : Event -> Prop) o v : P (Insert v o) -> Emits P (insert o v).
Proof. intros H w. now repeat constructor. Qed.

Lemma emits_storage_upload (P : Event -> Prop) o path body :
  P (Upload path body o) -> Emits P (storage_upload o path body).
Proof. intros H w. now repeat constructor. Qed.

Lemma emits_weaken {A} (P Q : Event -> Prop) (m : Js A) :
  (forall ev, P ev -> Q ev) -> Emits P m -> Emits Q m.
Proof. intros H Hm w. eapply Forall_impl; [|exact H]. apply Hm. Qed.

(** Walks through a piece of the script, leaving what each call must
    satisfy. *)
Ltac walk_calls :=
  repeat first
    [ progress cbv zeta
    | apply emits_ret
    | apply emits_throw
    | apply emits_bind; [|intros ?]
    | apply emits_try_catch; [|intros ?]
    | apply emits_console_log
    | apply emits_console_error
    | apply emits_await
    | apply emits_update_eq_id
    | apply emits_insert
    | apply emits_storage_upload
    | match goal with
      | |- Emits _ (if ?c then _ else _) => destruct c
      | |- Emits _ (match ?x with Some _ => _ | None => _ end) => destruct x
      end ].

(** *** What replaying updates preserves *)

(** A relation between a row before and after that holds of untouched
    rows, composes, and holds across every update of [evs] is kept by
    replaying [evs]. *)
Lemma replay_documents_Forall2 (R : Doc.t -> Doc.t -> Prop) evs rows :
  (forall d, R d d) ->
  (forall a b c, R a b -> R b c -> R a c) ->
  Forall
    (fun ev =>
       match ev with
       | Update id p _ => forall d, Doc.id d = id -> R d (Patch.apply p d)
       | _ => True
       end)
    evs ->
  Forall2 R rows (replay_documents evs rows).
Proof.
  intros Hrefl Htrans Hevs. revert rows.
  induction Hevs as [|ev evs Hev _ IH]; intros rows; simpl.
  - now apply Forall2_same.
  - destruct ev as [| | | | | | | | | |id p [[err|]|e]| |]; try apply IH.
    specialize (IH (update_where_id p id rows)).
    assert (H1 : Forall2 R rows (update_where_id p id rows))
      by (apply update_where_id_Forall2; auto).
    clear - Htrans IH H1.
    revert IH. generalize (replay_documents evs (update_where_id p id rows)).
    induction H1 as [|a b l l' Hab _ IH1]; intros l'' H2; inversion H2; subst;
      constructor; eauto.
Qed.

Lemma inserts_app evs evs' : inserts (evs ++ evs') = inserts evs ++ inserts evs'.
Proof.
  induction evs as [|ev evs IH]; [reflexivity|].
  destruct ev; simpl; now rewrite ?IH.
Qed.

(** Replaying inserts appends rows, each of them one of the inserts. *)
Lemma replay_versions_added evs rows :
  exists added,
    replay_versions evs rows = rows ++ added /\
    (length added <= length (inserts evs))%nat /\
    forall v, In v added -> In v (inserts evs).
Proof.
  revert rows. induction evs as [|ev evs IH]; intros rows.
  - exists []. simpl. rewrite app_nil_r. auto.
  - destruct ev as [| | | | | | | | | | |v [[err|]|e]|]; simpl; auto.
    + destruct (IH rows) as (added & -> & Hlen & Hin).
      exists added. repeat split; auto.
    + destruct (IH (rows ++ [v])) as (added & -> & Hlen & Hin).
      exists (v :: added). rewrite <- List.app_assoc. simpl.
      repeat split; [lia|]. intros v' [->|H]; auto.
    + destruct (IH rows) as (added & -> & Hlen & Hin).
      exists added. repeat split; auto.
Qed.

Lemma own_inserts doc evs :
  Forall (own_call doc) evs ->
  Forall
    (fun v => Version.reg_document_id v = Doc.id doc /\
              Version.version v = nextVersion doc)
    (inserts evs).
Proof.
  induction 1 as [|ev evs Hev _ IH]; [constructor|].
  destruct ev; simpl; auto.
Qed.

Lemma length_append (s t : string) :
  String.length (s +:+ t) = (String.length s + String.length t)%nat.
Proof. induction s as [|a s IH]; simpl; [reflexivity | now rewrite IH]. Qed.

Lemma append_cancel_r (t s1 s2 : string) : s1 +:+ t = s2 +:+ t -> s1 = s2.
Proof.
  revert s2. induction s1 as [|a s1 IH]; intros [|b s2] H.
  - reflexivity.
  - apply (f_equal String.length) in H.
    rewrite !length_append in H. simpl in H. lia.
  - apply (f_equal String.length) in H.
    rewrite !length_append in H. simpl in H. lia.
  - change (String a (s1 +:+ t) = String b (s2 +:+ t)) in H.
    injection H as -> H. f_equal. now apply IH.
Qed.

Lemma lifecycle_app evs evs' : lifecycle (evs ++ evs') = lifecycle evs ++ lifecycle evs'.
Proof.
  induction evs as [|ev evs IH]; [reflexivity|].
  destruct ev; simpl; now rewrite ?IH.
Qed.

Lemma own_calls_lifecycle doc evs : Forall (own_call doc) evs -> lifecycle evs = [].
Proof.
  induction 1 as [|ev evs Hev _ IH]; [reflexivity|].
  destruct ev; simpl in *; auto; contradiction.
Qed.

Lemma own_calls_never_close doc evs : Forall (own_call doc) evs -> ~ In Close evs.
Proof.
  intros H Hin. rewrite List.Forall_forall in H. exact (H _ Hin).
Qed.

Lemma In_firstn {A} n (l : list A) x : In x (firstn n l) -> In x l.
Proof.
  intros H. rewrite <- (firstn_skipn n l). apply in_or_app. now left.
Qed.

Lemma Forall2_compose {A} (R S T : A -> A -> Prop) l1 l2 l3 :
  (forall a b c, R a b -> S b c -> T a c) ->
  Forall2 R l1 l2 -> Forall2 S l2 l3 -> Forall2 T l1 l3.
Proof.
  intros H H1. revert l3.
  induction H1 as [|a b l l' Hab _ IH]; intros l3 H2; inversion H2; subst;
    constructor; eauto.
Qed.

Lemma Forall2_both {A} (R S : A -> A -> Prop) l1 l2 :
  Forall2 R l1 l2 -> Forall2 S l1 l2 -> Forall2 (fun a b => R a b /\ S a b) l1 l2.
Proof.
  induction 1 as [|a b l l' Hab _ IH]; intros H2; inversion H2; subst;
    constructor; auto.
Qed.

Lemma Forall2_In_r {A} (R : A -> A -> Prop) l1 l2 y :
  Forall2 R l1 l2 -> In y l2 -> exists x, In x l1 /\ R x y.
Proof.
  induction 1 as [|a b l l' Hab _ IH]; intros Hin; [contradiction|].
  destruct Hin as [<- | Hin]; [exists a; split; [now left | exact Hab]|].
  destruct (IH Hin) as (x & Hx & Hxy). exists x. split; [now right | exact Hxy].
Qed.

(** Updates that settle rows keep ids and never put a settled row back
    in the queue. *)
Lemma replay_keeps_settled evs rows :
  Forall settles evs ->
  Forall2
    (fun d d' => Doc.id d' = Doc.id d /\
                 (Doc.status d <> Status.pending -> Doc.status d' <> Status.pending))
    rows (replay_documents evs rows).
Proof.
  intros H. apply replay_documents_Forall2.
  - auto.
  - intros a b c [Hab1 Hab2] [Hbc1 Hbc2]. split; [congruence | auto].
  - eapply List.Forall_impl; [|exact H].
    intros [] Hev; simpl in *; auto.
    intros d _. split; [reflexivity|]. intros _. simpl.
    destruct Hev as [-> | ->]; discriminate.
Qed.

(** Once the store has done one of them on [id], the rows with that id
    are out of the queue for good. *)
Lemma replay_settles_id id evs rows :
  Forall settles evs ->
  (exists p, In (Update id p (Resolves None)) evs) ->
  Forall2
    (fun d d' => Doc.id d' = Doc.id d /\
                 (Doc.id d = id -> Doc.status d' <> Status.pending))
    rows (replay_documents evs rows).
Proof.
  intros Hall. revert rows.
  induction Hall as [|ev evs Hev Hall IH]; intros rows [p Hin]; [contradiction|].
  destruct Hin as [-> | Hin].
  - simpl.
    eapply Forall2_compose;
      [|apply (update_where_id_Forall2
                 (fun d d' => Doc.id d' = Doc.id d /\
                              (Doc.id d = id -> Doc.status d' <> Status.pending)))
       |apply replay_keeps_settled; exact Hall].
    + intros a b c [H1 H2] [H3 H4]. split; [congruence | auto].
    + intros d Hd. split; [reflexivity | contradiction].
    + intros d _. split; [reflexivity|]. intros _. simpl.
      simpl in Hev. destruct Hev as [-> | ->]; discriminate.
  - specialize (IH).
    destruct ev as [| | | | | | | | | |id0 p0 [[err|]|e]| |]; simpl;
      try (apply IH; eauto).
    eapply Forall2_compose;
      [|apply (update_where_id_Forall2 (fun d d' => Doc.id d' = Doc.id d))
       |apply IH; eauto]; auto.
    intros a b c H1 [H2 H3]. split; [congruence|]. intros Ha. apply H3. congruence.
Qed.

(** Splits a statement about one iteration into one case per path the
    iteration can take, reading the answers in the order the script
    does. *)
Ltac on_path t :=
  lazymatch goal with
  | |- context [t] =>
    first [ destruct t as [[?|]|?] | destruct t as [[]|?] | destruct t as [?|?] ]; cbn
  | _ => idtac
  end.

Ltac on_unchanged doc :=
  lazymatch goal with
  | |- context [unchanged doc ?h] => destruct (unchanged doc h); cbn
  | _ => idtac
  end.

Ltac every_path o doc :=
  unfold loop_body, visit, on_failure, try_catch, bind; cbn;
  on_path (goto o); on_path (evaluate o); on_unchanged doc;
  on_path (update_checked o); on_path (pdf o); on_path (upload o);
  on_path (page_title o); on_path (update_captured o);
  on_path (insert_version o); on_path (update_failed o).

(** Reads a membership in an explicit list of calls. *)
Ltac which_call H :=
  simpl in H;
  repeat (destruct H as [H|H]; [try discriminate H; try (inversion H; subst; clear H)|]);
  try contradiction.

Section Run.

Variable digest_hex : string -> string.
Variable wall_clock : nat -> Timestamp.

Lemma emits_new_Date P : Emits P (new_Date_toISOString wall_clock).
Proof. intros w. constructor. Qed.

(** Every call of an iteration is about the iteration's own document. *)
Lemma loop_body_own_calls o doc :
  Emits (own_call doc) (loop_body digest_hex wall_clock o doc).
Proof.
  unfold loop_body, visit, on_failure.
  walk_calls; try apply emits_new_Date; walk_calls; cbn; auto.
Qed.


(** The loop makes only calls of the kind its iterations make. *)
Lemma emits_for_of (P : Event -> Prop) answers i docs :
  (forall j doc, Emits P (loop_body digest_hex wall_clock (answers j) doc)) ->
  Emits P (for_of digest_hex wall_clock answers i docs).
Proof.
  intros H. revert i. induction docs as [|doc rest IH]; intros i; simpl.
  - apply emits_ret.
  - apply emits_bind; [apply H | intros _; apply IH].
Qed.

Lemma emits_main (P : Event -> Prop) r :
  P Select -> P Launch -> P NewPage -> P Close ->
  P (Log "No pending documents.") ->
  (forall j doc, Emits P (loop_body digest_hex wall_clock (visits r j) doc)) ->
  Emits P (main digest_hex wall_clock r).
Proof.
  intros HS HL HN HC Hlog Hbody. unfold main.
  apply emits_bind; [intros w; now repeat constructor|].
  intros [docs [err|]]; [apply emits_throw|].
  destruct docs as [[|doc rest]|]; try now apply emits_console_log.
  remember (doc :: rest) as batch eqn:B. clear B.
  apply emits_bind; [now apply emits_await | intros _].
  apply emits_bind; [now apply emits_await | intros _].
  apply emits_bind; [now apply emits_for_of | intros _].
  now apply emits_await.
Qed.

Lemma loop_body_settles o doc : Emits settles (loop_body digest_hex wall_clock o doc).
Proof.
  eapply emits_weaken; [|apply loop_body_own_calls].
  intros [] H; simpl in *; tauto.
Qed.

Lemma nextVersion_ge doc v :
  Doc.latest_version doc = Some v -> v <= nextVersion doc.
Proof.
  intros H. unfold nextVersion, or_default. rewrite H.
  destruct (v =? 0) eqn:E; destruct (truthy _); lia.
Qed.

Lemma replay_documents_keeps {B} (f : Doc.t -> B) evs rows :
  (forall p d, f (Patch.apply p d) = f d) ->
  map f (replay_documents evs rows) = map f rows.
Proof.
  intros H. revert rows. induction evs as [|ev evs IH]; intros rows; [reflexivity|].
  destruct ev as [| | | | | | | | | |id p [[err|]|e]| |]; simpl; rewrite ?IH; auto.
  unfold update_where_id. rewrite map_map. apply map_ext.
  intros d. now destruct (String.eqb (Doc.id d) id).
Qed.

(** *** One iteration, on every path *)

(** X1. Whatever the outside world answers, visiting [doc] leaves every
    row whose id is not [doc]'s exactly as it was. *)
Theorem iteration_leaves_other_rows o doc w :
  Forall2 (fun d d' => Doc.id d <> Doc.id doc -> d' = d)
    (reg_documents w)
    (reg_documents (world (loop_body digest_hex wall_clock o doc w))).
Proof.
  destruct (faithful_loop_body digest_hex wall_clock o doc w) as [-> _].
  apply replay_documents_Forall2.
  - auto.
  - intros a b c Hab Hbc Hne. rewrite Hbc; rewrite (Hab Hne); auto.
  - eapply List.Forall_impl; [|apply loop_body_own_calls].
    intros [] H; simpl in *; auto.
    destruct H as [-> _]. intros d Hd Hne. contradiction.
Qed.

(** X2. Whatever the outside world answers, visiting [doc] leaves each
    row's [latest_version] as it was or sets it to [nextVersion doc], and
    that number is not below the version the document was fetched with:
    no path lowers a version. *)
Theorem iteration_never_lowers_version o doc w :
  Forall2
    (fun d d' =>
       Doc.latest_version d' = Doc.latest_version d \/
       Doc.latest_version d' = Some (nextVersion doc))
    (reg_documents w)
    (reg_documents (world (loop_body digest_hex wall_clock o doc w))) /\
  forall v, Doc.latest_version doc = Some v -> v <= nextVersion doc.
Proof.
  split; [|intros v; apply nextVersion_ge].
  destruct (faithful_loop_body digest_hex wall_clock o doc w) as [-> _].
  apply replay_documents_Forall2.
  - auto.
  - intros a b c [Hab|Hab] [Hbc|Hbc]; rewrite ?Hbc, ?Hab; auto.
  - eapply List.Forall_impl; [|apply loop_body_own_calls].
    intros [] H; simpl in *; auto.
    destruct H as (_ & _ & [H|H]); intros d _; simpl; rewrite H; simpl; auto.
Qed.

(** *** A whole run *)

(** X3. A run never adds, removes or reorders rows of [reg_documents],
    and never changes a row's id or address. *)
Theorem run_keeps_rows_in_place r w :
  let rows' := reg_documents (world (main digest_hex wall_clock r w)) in
  map Doc.id rows' = map Doc.id (reg_documents w) /\
  map Doc.canonical_url rows' = map Doc.canonical_url (reg_documents w) /\
  length rows' = length (reg_documents w).
Proof.
  cbv zeta. destruct (faithful_main digest_hex wall_clock r w) as [-> _].
  assert (Hid : map Doc.id (replay_documents (events (main digest_hex wall_clock r w))
                              (reg_documents w)) = map Doc.id (reg_documents w))
    by now apply replay_documents_keeps.
  split; [exact Hid|]. split; [now apply replay_documents_keeps|].
  apply (f_equal (@length _)) in Hid. now rewrite !length_map in Hid.
Qed.

(** X4. A run never puts a row back in the queue: a row that is
    [pending] after the run is, column for column, the row it was before
    the run. *)
Theorem pending_after_run_is_untouched r w :
  Forall2 (fun d d' => Doc.status d' = Status.pending -> d' = d)
    (reg_documents w)
    (reg_documents (world (main digest_hex wall_clock r w))).
Proof.
  destruct (faithful_main digest_hex wall_clock r w) as [-> _].
  apply replay_documents_Forall2.
  - auto.
  - intros a b c Hab Hbc Hc. specialize (Hbc Hc). subst c. auto.
  - eapply List.Forall_impl;
      [|apply (emits_main settles); simpl; auto using loop_body_settles].
    intros [] H; simpl in *; auto.
    intros d _ Hp. simpl in Hp. destruct H as [H|H]; rewrite H in Hp; discriminate.
Qed.

(** What the loop inserts: at most one row per document of the batch,
    each for a document of the batch at the version computed for it. *)
Lemma for_of_inserts answers i docs w :
  let evs := events (for_of digest_hex wall_clock answers i docs w) in
  (length (inserts evs) <= length docs)%nat /\
  Forall
    (fun v => exists doc, In doc docs /\
                          Version.reg_document_id v = Doc.id doc /\
                          Version.version v = nextVersion doc)
    (inserts evs).
Proof.
  cbv zeta. revert i w. induction docs as [|doc rest IH]; intros i w.
  - simpl. split; [lia | constructor].
  - assert (H1 : (length (inserts (events (loop_body digest_hex wall_clock
                                             (answers i) doc w))) <= 1)%nat).
    { destruct (insert_only_after_update digest_hex wall_clock (answers i) doc w)
        as [-> | (? & ? & ? & ? & ? & ? & _ & _ & ->)]; simpl; lia. }
    assert (H2 : Forall
                   (fun v => exists d, In d (doc :: rest) /\
                                       Version.reg_document_id v = Doc.id d /\
                                       Version.version v = nextVersion d)
                   (inserts (events (loop_body digest_hex wall_clock
                                       (answers i) doc w)))).
    { eapply List.Forall_impl; [|apply own_inserts, loop_body_own_calls].
      intros v Hv. exists doc. split; [now left | exact Hv]. }
    destruct (completion (loop_body digest_hex wall_clock (answers i) doc w))
      as [[]|e] eqn:E.
    + rewrite for_of_cons by assumption. cbn [events].
      destruct (IH (S i) (world (loop_body digest_hex wall_clock (answers i) doc w)))
        as [Hlen Hall].
      rewrite inserts_app, length_app. split; [simpl; lia|].
      apply Forall_app. split; [exact H2|].
      eapply List.Forall_impl; [|exact Hall].
      intros v (d & Hd & Hv). exists d. split; [now right | exact Hv].
    + simpl. rewrite (bind_throw _ _ _ _ E). cbn [events]. split; [lia | exact H2].
Qed.

Lemma main_inserts r w :
  let evs := events (main digest_hex wall_clock r w) in
  let batch := pending_rows (reg_documents w) in
  (length (inserts evs) <= length batch)%nat /\
  Forall
    (fun v => exists doc, In doc batch /\
                          Version.reg_document_id v = Doc.id doc /\
                          Version.version v = nextVersion doc)
    (inserts evs).
Proof.
  cbv zeta. unfold main, bind, select_eq_status_pending_limit, await.
  remember (pending_rows (reg_documents w)) as docs eqn:D. clear D.
  destruct (select_pending r) as [[err|]|e]; cbn;
    try (split; [lia | constructor]).
  destruct docs as [|doc rest]; [cbn; split; [lia | constructor]|].
  cbv beta iota. remember (doc :: rest) as batch eqn:B. clear B.
  destruct (launch r); cbn; [|split; [lia | constructor]].
  destruct (new_page r); cbn; [|split; [lia | constructor]].
  pose proof (for_of_inserts (visits r) 0 batch w) as H. cbv zeta in H.
  destruct (for_of digest_hex wall_clock (visits r) 0 batch w) as [[[]|e] w1 evs1];
    cbn in *; rewrite ?inserts_app; cbn; rewrite ?app_nil_r; exact H.
Qed.

(** X5. A run only appends to [reg_document_versions]: the rows that
    were there stay, in place and unchanged, and the rows added are at
    most one per fetched document (so at most 20), each carrying the id
    of a fetched document and the version computed for it. *)
Theorem run_appends_versions_of_the_batch r w :
  let batch := pending_rows (reg_documents w) in
  exists added,
    reg_document_versions (world (main digest_hex wall_clock r w)) =
      reg_document_versions w ++ added /\
    (length added <= length batch)%nat /\
    (length added <= 20)%nat /\
    Forall
      (fun v => exists doc, In doc batch /\
                            Version.reg_document_id v = Doc.id doc /\
                            Version.version v = nextVersion doc)
      added.
Proof.
  cbv zeta. destruct (faithful_main digest_hex wall_clock r w) as [_ ->].
  destruct (replay_versions_added (events (main digest_hex wall_clock r w))
              (reg_document_versions w)) as (added & -> & Hlen & Hin).
  destruct (main_inserts r w) as [Hn Hall].
  exists added. split; [reflexivity|].
  assert (Hb : (length (pending_rows (reg_documents w)) <= 20)%nat)
    by apply firstn_le_length.
  repeat split; try lia.
  apply List.Forall_forall. intros v Hv.
  rewrite List.Forall_forall in Hall. auto.
Qed.

(** X6. Whatever the outside world answers, a row update that carries a
    [snapshot_path] and a version row are issued only once the bucket
    holds an object at the path they carry: the script never records a
    snapshot it has not stored. *)
Theorem recorded_snapshot_is_stored o doc w :
  let R := loop_body digest_hex wall_clock o doc w in
  (forall id p a path,
     In (Update id p a) (events R) ->
     Patch.snapshot_path p = Some path ->
     exists body, regulations (world R) !! path = Some body) /\
  (forall v a,
     In (Insert v a) (events R) ->
     exists body, regulations (world R) !! Version.snapshot_path v = Some body).
Proof.
  cbv zeta. every_path o doc; split.
  all: try (intros ? ? ? ? H Hp; which_call H; try discriminate Hp;
            injection Hp as <-; eexists; apply lookup_insert_eq).
  all: intros ? ? H; which_call H; eexists; apply lookup_insert_eq.
Qed.

(** X7. Two documents with the same id whose snapshot paths are equal
    are at the same version: one document's snapshots of different
    versions are stored under different paths, so a capture never
    overwrites the snapshot of another version. *)
Theorem snapshot_path_tells_version (d1 d2 : Doc.t) :
  Doc.id d1 = Doc.id d2 ->
  snapshot_path_of d1 = snapshot_path_of d2 ->
  nextVersion d1 = nextVersion d2.
Proof.
  unfold snapshot_path_of, decimal. intros -> H.
  apply String.app_inj in H. apply (String.app_inj "/v") in H.
  apply append_cancel_r in H. now apply pretty_Z_inj in H.
Qed.

Hypothesis digest_hex_length : forall text, String.length (digest_hex text) = 64%nat.

(** X8. The row a capture writes is, when fetched again while the page
    still shows the text it was captured with, only marked checked: the
    visit uploads nothing, inserts nothing, and leaves every row's
    [latest_version] and [content_hash] as they are. *)
Theorem recheck_after_capture_is_quiet o doc w body ttl t1 t2 t3 r :
  goto o = Resolves tt ->
  evaluate o = Resolves body ->
  update_checked o = Resolves r ->
  let text := innerText_or_empty body in
  let captured :=
    Patch.apply (captured_patch doc ttl text (sha256 digest_hex text) t1 t2 t3) doc in
  let R := loop_body digest_hex wall_clock o captured w in
  completion R = Normal tt /\
  uploads (events R) = [] /\
  inserts (events R) = [] /\
  reg_document_versions (world R) = reg_document_versions w /\
  regulations (world R) = regulations w /\
  Forall2
    (fun d d' => Doc.latest_version d' = Doc.latest_version d /\
                 Doc.content_hash d' = Doc.content_hash d)
    (reg_documents w) (reg_documents (world R)).
Proof.
  intros Hg He Hc text captured R.
  assert (HR : R = _)
    by (apply (loop_body_checked digest_hex wall_clock o captured w body r);
        [exact Hg | exact He | | exact Hc];
        apply unchanged_same_digest; [exact digest_hex_length | reflexivity]).
  rewrite HR. cbn [completion world events uploads inserts].
  destruct r; cbn; repeat split; auto.
  - apply Forall2_same. auto.
  - apply update_where_id_Forall2; intros d _; now split.
Qed.

(** X9. The row a capture writes is one version ahead for the next
    capture: when the stored version is absent or not negative, the
    version computed for the written row is the version just written
    plus 1, so successive captures of a document get consecutive
    versions. *)
Theorem captures_get_consecutive_versions doc ttl text t1 t2 t3 :
  (forall v, Doc.latest_version doc = Some v -> 0 <= v) ->
  nextVersion
    (Patch.apply (captured_patch doc ttl text (sha256 digest_hex text) t1 t2 t3) doc)
  = nextVersion doc + 1.
Proof.
  intros H. pose proof (nextVersion_positive doc H) as Hpos.
  unfold nextVersion at 1. simpl.
  pose proof (digest_truthy digest_hex digest_hex_length text) as Ht.
  unfold truthy in Ht. rewrite Ht.
  destruct (nextVersion doc =? 0) eqn:E; [|reflexivity].
  apply Z.eqb_eq in E. lia.
Qed.

(** X10. Navigation, extraction or rendering fails with [e].  Nothing is
    uploaded and nothing is inserted, the failure is logged with the
    document's address, the only row update is the handler's, every row
    keeps the columns of its last capture, and when the store does the
    handler's update the document's rows are [error] while the other
    rows are as they were. *)
Theorem early_failure_marks_error o doc w e :
  goto o = Rejects e \/
  (goto o = Resolves tt /\ evaluate o = Rejects e) \/
  (exists body,
     goto o = Resolves tt /\ evaluate o = Resolves body /\
     unchanged doc (sha256 digest_hex (innerText_or_empty body)) = false /\
     pdf o = Rejects e) ->
  let R := loop_body digest_hex wall_clock o doc w in
  uploads (events R) = [] /\
  inserts (events R) = [] /\
  In (LogError ("Failed: " +:+ Doc.canonical_url doc +:+ " " +:+ e)) (events R) /\
  updates (events R) =
    [(Doc.id doc, failed_patch (wall_clock (clock w)) (wall_clock (S (clock w))))] /\
  reg_document_versions (world R) = reg_document_versions w /\
  regulations (world R) = regulations w /\
  Forall2 same_capture (reg_documents w) (reg_documents (world R)) /\
  (update_failed o = Resolves None ->
   completion R = Normal tt /\
   Forall2
     (fun d d' => if String.eqb (Doc.id d) (Doc.id doc)
                  then Doc.status d' = Status.error
                  else d' = d)
     (reg_documents w) (reg_documents (world R))).
Proof.
  intros H. cbv zeta.
  assert (Herr : forall rows,
            Forall2
              (fun d d' => if String.eqb (Doc.id d) (Doc.id doc)
                           then Doc.status d' = Status.error
                           else d' = d)
              rows
              (update_where_id
                 (failed_patch (wall_clock (clock w)) (wall_clock (S (clock w))))
                 (Doc.id doc) rows)).
  { intros rows. apply update_where_id_Forall2; intros d Hd.
    - apply String.eqb_neq in Hd. now rewrite Hd.
    - apply String.eqb_eq in Hd. now rewrite Hd. }
  assert (Hsame : forall rows,
            Forall2 same_capture rows
              (update_where_id
                 (failed_patch (wall_clock (clock w)) (wall_clock (S (clock w))))
                 (Doc.id doc) rows)).
  { intros rows. apply update_where_id_Forall2; intros d _; now repeat split. }
  assert (Hrefl : forall rows, Forall2 same_capture rows rows).
  { intros rows. apply Forall2_same. intros d. now repeat split. }
  unfold loop_body, visit, on_failure, try_catch, bind.
  destruct H as [Hg | [[Hg He] | (body & Hg & He & Hu & Hp)]].
  - rewrite Hg. cbn.
    destruct (update_failed o) as [[err|]|e']; cbn; repeat split;
      auto 10 using in_eq, in_cons; discriminate.
  - rewrite Hg, He. cbn.
    destruct (update_failed o) as [[err|]|e']; cbn; repeat split;
      auto 10 using in_eq, in_cons; discriminate.
  - rewrite Hg, He. cbn. rewrite Hu, Hp. cbn.
    destruct (update_failed o) as [[err|]|e']; cbn; repeat split;
      auto 10 using in_eq, in_cons; discriminate.
Qed.

(** X11. The snapshot is stored and then [page.title()] fails: the
    bucket keeps the new object at the document's snapshot path, but no
    row records it: the capture update and the insert are never issued,
    every row keeps the columns of its last capture, and the version
    table is as it was. *)
Theorem title_failure_leaves_unrecorded_snapshot o doc w body buf e :
  goto o = Resolves tt ->
  evaluate o = Resolves body ->
  unchanged doc (sha256 digest_hex (innerText_or_empty body)) = false ->
  pdf o = Resolves buf ->
  upload o = Resolves None ->
  page_title o = Rejects e ->
  let R := loop_body digest_hex wall_clock o doc w in
  regulations (world R) !! snapshot_path_of doc = Some buf /\
  updates (events R) =
    [(Doc.id doc, failed_patch (wall_clock (clock w)) (wall_clock (S (clock w))))] /\
  inserts (events R) = [] /\
  Forall2 same_capture (reg_documents w) (reg_documents (world R)) /\
  reg_document_versions (world R) = reg_document_versions w.
Proof.
  intros Hg He Hu Hp Hup Ht. cbv zeta.
  unfold loop_body, visit, on_failure, try_catch, bind.
  rewrite Hg, He. cbn. rewrite Hu, Hp, Hup. cbn. rewrite Ht. cbn.
  destruct (update_failed o) as [[err|]|e']; cbn; repeat split;
    try apply lookup_insert_eq;
    try (apply Forall2_same; intros d; now repeat split).
  apply update_where_id_Forall2; intros d _; now repeat split.
Qed.

(** *** The run from its first call to its exit code *)

Lemma for_of_lifecycle answers i docs w :
  lifecycle (events (for_of digest_hex wall_clock answers i docs w)) = [].
Proof.
  revert i w. induction docs as [|doc rest IH]; intros i w; [reflexivity|].
  assert (H : lifecycle (events (loop_body digest_hex wall_clock (answers i) doc w)) = [])
    by (eapply own_calls_lifecycle, loop_body_own_calls).
  destruct (completion (loop_body digest_hex wall_clock (answers i) doc w))
    as [[]|e] eqn:E.
  - rewrite for_of_cons by assumption. cbn [events].
    now rewrite lifecycle_app, H, IH.
  - simpl. now rewrite (bind_throw _ _ _ _ E).
Qed.

Lemma for_of_never_closes answers i docs w :
  ~ In Close (events (for_of digest_hex wall_clock answers i docs w)).
Proof.
  revert i w. induction docs as [|doc rest IH]; intros i w; [simpl; tauto|].
  assert (H : ~ In Close (events (loop_body digest_hex wall_clock (answers i) doc w)))
    by (eapply own_calls_never_close, loop_body_own_calls).
  destruct (completion (loop_body digest_hex wall_clock (answers i) doc w))
    as [[]|e] eqn:E.
  - rewrite for_of_cons by assumption. cbn [events].
    intros Hin. apply in_app_or in Hin as [Hin|Hin]; [now apply H | now apply IH in Hin].
  - simpl. now rewrite (bind_throw _ _ _ _ E).
Qed.

(** X12. In every run the query is the first call, and the query, the
    browser launch, the page creation and the browser close happen in
    this order, each at most once: however many documents are visited,
    one query is made and one browser and one page are used. *)
Theorem one_query_one_browser_one_page r w :
  exists k,
    (1 <= k)%nat /\
    lifecycle (events (main digest_hex wall_clock r w)) =
    firstn k [Select; Launch; NewPage; Close].
Proof.
  unfold main, bind, select_eq_status_pending_limit, await.
  remember (pending_rows (reg_documents w)) as docs eqn:D. clear D.
  destruct (select_pending r) as [[err|]|e]; cbn;
    try (exists 1%nat; split; [lia | reflexivity]).
  destruct docs as [|doc rest]; [exists 1%nat; split; [lia | reflexivity]|].
  cbv beta iota. remember (doc :: rest) as batch eqn:B. clear B.
  destruct (launch r); cbn; [|exists 2%nat; split; [lia | reflexivity]].
  destruct (new_page r); cbn; [|exists 3%nat; split; [lia | reflexivity]].
  pose proof (for_of_lifecycle (visits r) 0 batch w) as H.
  destruct (for_of digest_hex wall_clock (visits r) 0 batch w) as [[[]|e] w1 evs1];
    cbn in *.
  - exists 4%nat. split; [lia|]. now rewrite lifecycle_app, H.
  - exists 3%nat. split; [lia|]. now rewrite H.
Qed.

(** X13. [main] has no [finally]: when it throws and [browser.close()]
    itself did not reject, the browser was not closed. *)
Theorem thrown_run_leaves_browser_open r w e :
  (forall e', close r <> Rejects e') ->
  completion (main digest_hex wall_clock r w) = Throw e ->
  ~ In Close (events (main digest_hex wall_clock r w)).
Proof.
  intros Hclose. unfold main, bind, select_eq_status_pending_limit, await.
  remember (pending_rows (reg_documents w)) as docs eqn:D. clear D.
  destruct (select_pending r) as [[err|]|e0]; cbn;
    try (intros _ [H|[]]; discriminate H).
  destruct docs as [|doc rest]; [cbn; intros H; discriminate H|].
  cbv beta iota. remember (doc :: rest) as batch eqn:B. clear B.
  destruct (launch r); cbn; [|intros _ [H|[H|[]]]; discriminate H].
  destruct (new_page r); cbn; [|intros _ [H|[H|[H|[]]]]; discriminate H].
  pose proof (for_of_never_closes (visits r) 0 batch w) as H.
  destruct (for_of digest_hex wall_clock (visits r) 0 batch w) as [[[]|e0] w1 evs1];
    cbn in *.
  - destruct (close r) as [[]|e']; cbn; [intros E; discriminate E|].
    now destruct (Hclose e').
  - intros _ [E|[E|[E|Hin]]]; try discriminate E. now apply H.
Qed.

(** X14. A failure [e] reaches the handler and the promise of the
    handler's update rejects with [e']: the rejection leaves the catch
    block, the loop ends with [e'], and the documents after this one are
    not visited. *)
Theorem rejected_error_update_stops_the_loop answers i doc rest w e e' :
  completion (visit digest_hex wall_clock (answers i) doc w) = Throw e ->
  update_failed (answers i) = Rejects e' ->
  let R := for_of digest_hex wall_clock answers i (doc :: rest) w in
  completion R = Throw e' /\
  visited (events R) = [Doc.canonical_url doc] /\
  events R = events (loop_body digest_hex wall_clock (answers i) doc w) /\
  reg_documents (world R) =
    reg_documents (world (visit digest_hex wall_clock (answers i) doc w)).
Proof.
  intros HV Hf R.
  assert (HL : completion (loop_body digest_hex wall_clock (answers i) doc w) = Throw e').
  { rewrite (loop_body_caught _ _ _ _ _ _ HV). cbn. now rewrite Hf. }
  assert (HR : R = _) by exact (bind_throw _ _ _ _ HL).
  rewrite HR. cbn [completion world events].
  split; [reflexivity|]. split; [apply loop_body_visited|]. split; [reflexivity|].
  rewrite (loop_body_caught _ _ _ _ _ _ HV). cbn. now rewrite Hf.
Qed.

Lemma main_starts_with_query r w :
  exists evs, events (main digest_hex wall_clock r w) = Select :: evs.
Proof.
  unfold main, bind, select_eq_status_pending_limit.
  destruct (select_pending r) as [[err|]|e]; cbn; eauto.
  match goal with
  | |- context [match ?m w with _ => _ end] => destruct (m w)
  end.
  eauto.
Qed.

Lemma main_completes r w :
  select_pending r = Resolves None ->
  launch r = Resolves tt ->
  new_page r = Resolves tt ->
  close r = Resolves tt ->
  (forall j e, update_failed (visits r j) <> Rejects e) ->
  completion (main digest_hex wall_clock r w) = Normal tt.
Proof.
  intros Hs Hl Hn Hc Hh.
  unfold main, bind, select_eq_status_pending_limit, await.
  remember (pending_rows (reg_documents w)) as docs eqn:D. clear D.
  rewrite Hs. cbn. destruct docs as [|doc rest]; [reflexivity|].
  cbv beta iota. remember (doc :: rest) as batch eqn:B. clear B.
  rewrite Hl, Hn, Hc. cbn.
  destruct (for_of_runs_through digest_hex wall_clock (visits r) 0 batch w Hh)
    as [Hcompl _].
  destruct (for_of digest_hex wall_clock (visits r) 0 batch w) as [c w1 evs1].
  cbn in *. now subst c.
Qed.

(** X15. The process makes no call at all exactly when one of the two
    environment variables is missing or empty or [createClient] throws;
    it then exits with code 1 and the store is as it was. *)
Theorem no_call_without_configuration p w :
  (calls (script digest_hex wall_clock p w) = [] <->
   truthy (SUPABASE_URL p) = false \/
   truthy (SUPABASE_SERVICE_ROLE_KEY p) = false \/
   exists e, createClient p = Rejects e) /\
  (calls (script digest_hex wall_clock p w) = [] ->
   exit_code (script digest_hex wall_clock p w) = 1 /\
   remains (script digest_hex wall_clock p w) = w).
Proof.
  unfold script.
  destruct (main_starts_with_query (outside p) w) as [evs Hevs].
  destruct (main digest_hex wall_clock (outside p) w) as [c w1 evs1].
  cbn [events] in Hevs. subst evs1.
  destruct (truthy (SUPABASE_URL p)); cbn; [|split; [split|]; auto].
  destruct (truthy (SUPABASE_SERVICE_ROLE_KEY p)); cbn; [|split; [split|]; auto].
  destruct (createClient p) as [[]|e]; cbn; [|split; [split|]; eauto].
  destruct c as [[]|e]; cbn.
  - split; [split|]; try (intros H; discriminate H).
    intros [H|[H|[e H]]]; discriminate H.
  - split; [split|]; try (intros H; discriminate H).
    intros [H|[H|[e' H]]]; discriminate H.
Qed.

(** X16. When the configuration is there and the query, the browser and
    the promises of the handler's updates do not fail, the process exits
    with code 0 whatever happened to the documents: failed documents do
    not show in the exit code. *)
Theorem failed_documents_do_not_change_the_exit_code p w :
  truthy (SUPABASE_URL p) = true ->
  truthy (SUPABASE_SERVICE_ROLE_KEY p) = true ->
  createClient p = Resolves tt ->
  select_pending (outside p) = Resolves None ->
  launch (outside p) = Resolves tt ->
  new_page (outside p) = Resolves tt ->
  close (outside p) = Resolves tt ->
  (forall j e, update_failed (visits (outside p) j) <> Rejects e) ->
  exit_code (script digest_hex wall_clock p w) = 0.
Proof.
  intros Hu Hk Hcc Hs Hl Hn Hc Hh. unfold script.
  pose proof (main_completes (outside p) w Hs Hl Hn Hc Hh) as H.
  destruct (main digest_hex wall_clock (outside p) w) as [c w1 evs1].
  cbn in H. subst c. now rewrite Hu, Hk, Hcc.
Qed.

(** X17. The configuration is there and the store refuses the query or
    its promise rejects: the process prints the error and exits with
    code 1 having made no other call, and the store is as it was. *)
Theorem failed_query_is_fatal p w e :
  truthy (SUPABASE_URL p) = true ->
  truthy (SUPABASE_SERVICE_ROLE_KEY p) = true ->
  createClient p = Resolves tt ->
  select_pending (outside p) = Resolves (Some e) \/
  select_pending (outside p) = Rejects e ->
  script digest_hex wall_clock p w =
  {| exit_code := 1; remains := w; calls := [Select; LogError e] |}.
Proof.
  intros Hu Hk Hcc Hs. unfold script. rewrite Hu, Hk, Hcc. cbn.
  unfold main, bind, select_eq_status_pending_limit.
  destruct Hs as [-> | ->]; reflexivity.
Qed.

(** X18. The configuration is there, the query succeeds and no row is
    pending: the process logs it and exits with code 0 without starting
    a browser, and the store is as it was. *)
Theorem empty_queue_starts_no_browser p w :
  truthy (SUPABASE_URL p) = true ->
  truthy (SUPABASE_SERVICE_ROLE_KEY p) = true ->
  createClient p = Resolves tt ->
  select_pending (outside p) = Resolves None ->
  Forall (fun d => Doc.status d <> Status.pending) (reg_documents w) ->
  script digest_hex wall_clock p w =
  {| exit_code := 0; remains := w; calls := [Select; Log "No pending documents."] |}.
Proof.
  intros Hu Hk Hcc Hs Hrows.
  assert (He : pending_rows (reg_documents w) = []).
  { unfold pending_rows. replace (List.filter is_pending (reg_documents w)) with (@nil Doc.t);
      [reflexivity|].
    induction Hrows as [|d rows Hd _ IH]; [reflexivity|]. simpl.
    unfold is_pending at 1. destruct (Doc.status d); simpl; auto. contradiction. }
  assert (HM : main digest_hex wall_clock (outside p) w =
               {| completion := Normal tt; world := w;
                  events := [Select; Log "No pending documents."] |}).
  { unfold main, bind, select_eq_status_pending_limit. rewrite Hs, He. reflexivity. }
  unfold script. now rewrite HM, Hu, Hk, Hcc.
Qed.

(** *** A run in which the store does every row update *)

(** On every path of an iteration some row update is issued. *)
Lemma iteration_issues_accepted_update o doc w :
  update_checked o = Resolves None ->
  update_captured o = Resolves None ->
  update_failed o = Resolves None ->
  exists p,
    In (Update (Doc.id doc) p (Resolves None))
       (events (loop_body digest_hex wall_clock o doc w)).
Proof.
  intros H1 H2 H3. unfold loop_body, visit, on_failure, try_catch, bind.
  rewrite H1, H2, H3. cbn.
  on_path (goto o); on_path (evaluate o); on_unchanged doc;
    on_path (pdf o); on_path (upload o); on_path (page_title o);
    on_path (insert_version o);
    eexists; repeat first [left; reflexivity | right].
Qed.

Lemma for_of_settles_batch answers i docs w :
  (forall j, update_checked (answers j) = Resolves None /\
             update_captured (answers j) = Resolves None /\
             update_failed (answers j) = Resolves None) ->
  Forall2
    (fun d d' => Doc.id d' = Doc.id d /\
                 (In (Doc.id d) (map Doc.id docs) -> Doc.status d' <> Status.pending))
    (reg_documents w)
    (reg_documents (world (for_of digest_hex wall_clock answers i docs w))).
Proof.
  intros Hacc. revert i w. induction docs as [|doc rest IH]; intros i w.
  - apply Forall2_same. intros d. split; [reflexivity | contradiction].
  - destruct (Hacc i) as (H1 & H2 & H3).
    rewrite for_of_cons by (eapply loop_body_completion; eauto).
    cbn [world].
    set (w1 := world (loop_body digest_hex wall_clock (answers i) doc w)).
    assert (Hfirst :
      Forall2
        (fun d d' => Doc.id d' = Doc.id d /\
                     (Doc.id d = Doc.id doc -> Doc.status d' <> Status.pending))
        (reg_documents w) (reg_documents w1)).
    { subst w1.
      destruct (faithful_loop_body digest_hex wall_clock (answers i) doc w) as [-> _].
      apply replay_settles_id.
      - apply loop_body_settles.
      - now apply iteration_issues_accepted_update. }
    assert (Hkeep :
      Forall2
        (fun d d' => Doc.id d' = Doc.id d /\
                     (Doc.status d <> Status.pending -> Doc.status d' <> Status.pending))
        (reg_documents w1)
        (reg_documents (world (for_of digest_hex wall_clock answers (S i) rest w1)))).
    { destruct (faithful_for_of digest_hex wall_clock answers (S i) rest w1) as [-> _].
      apply replay_keeps_settled. apply emits_for_of.
      intros j d. apply loop_body_settles. }
    eapply Forall2_compose; [|exact Hfirst|exact (Forall2_both _ _ _ _ (IH (S i) w1) Hkeep)].
    intros a b c [Hab1 Hab2] [[Hbc1 Hbc2] [_ Hbc3]].
    split; [congruence|]. intros [Hin|Hin].
    + apply Hbc3. apply Hab2. congruence.
    + apply Hbc2. now rewrite Hab1.
Qed.

(** X19. When the query and the browser start succeed and the store does
    every row update of the run, no row that carries the id of a fetched
    document is pending afterwards, so the next run's query returns none
    of them: the queue is worked off batch by batch. *)
Theorem accepted_run_works_off_the_batch r w :
  select_pending r = Resolves None ->
  launch r = Resolves tt ->
  new_page r = Resolves tt ->
  (forall j, update_checked (visits r j) = Resolves None /\
             update_captured (visits r j) = Resolves None /\
             update_failed (visits r j) = Resolves None) ->
  let batch := pending_rows (reg_documents w) in
  let rows' := reg_documents (world (main digest_hex wall_clock r w)) in
  Forall2
    (fun d d' => Doc.id d' = Doc.id d /\
                 (In (Doc.id d) (map Doc.id batch) -> Doc.status d' <> Status.pending))
    (reg_documents w) rows' /\
  Forall (fun d' => ~ In (Doc.id d') (map Doc.id batch)) (pending_rows rows').
Proof.
  intros Hs Hl Hn Hacc batch rows'.
  assert (H : Forall2
                (fun d d' => Doc.id d' = Doc.id d /\
                             (In (Doc.id d) (map Doc.id batch) ->
                              Doc.status d' <> Status.pending))
                (reg_documents w) rows').
  { subst rows' batch.
    pose proof (for_of_settles_batch (visits r) 0 (pending_rows (reg_documents w)) w Hacc)
      as Hfor.
    unfold main, bind, select_eq_status_pending_limit, await.
    remember (pending_rows (reg_documents w)) as docs eqn:D. clear D.
    rewrite Hs. cbn. destruct docs as [|doc rest]; [exact Hfor|].
    cbv beta iota. remember (doc :: rest) as docs eqn:B. clear B.
    rewrite Hl, Hn. cbn.
    destruct (for_of digest_hex wall_clock (visits r) 0 docs w) as [[[]|e] w1 evs1];
      cbn in *; exact Hfor. }
  split; [exact H|].
  apply List.Forall_forall. intros d' Hd' Hin.
  unfold pending_rows in Hd'. apply In_firstn in Hd'.
  apply List.filter_In in Hd' as [Hd' Hp].
  destruct (Forall2_In_r _ _ _ _ H Hd') as (d & _ & Hid & Hst).
  rewrite Hid in Hin. apply (Hst Hin).
  unfold is_pending in Hp. now destruct (Doc.status d').
Qed.

End Run.


(** ** More statements on sample data *)

(** X7 on two states of one row at version 3. *)
Lemma snapshot_path_tells_version_witness :
  Doc.id Sample.seen = Doc.id Sample2.seen_failed /\
  snapshot_path_of Sample.seen = snapshot_path_of Sample2.seen_failed /\
  nextVersion Sample.seen = nextVersion Sample2.seen_failed.
Proof.
  do 2 (split; [evaluate_it|]).
  apply (snapshot_path_tells_version Sample.seen Sample2.seen_failed); evaluate_it.
Defined.

(** X8 on the row the first capture of [Sample.fresh] writes. *)
Lemma recheck_after_capture_is_quiet_witness :
  goto (Sample.smooth Sample.text_v1) = Resolves tt /\
  evaluate (Sample.smooth Sample.text_v1) = Resolves (Some Sample.text_v1) /\
  update_checked (Sample.smooth Sample.text_v1) = Resolves None /\
  let captured :=
    Patch.apply
      (captured_patch Sample.fresh "Regulation" Sample.text_v1
         (sha256 Sample.digest Sample.text_v1)
         (Sample.wall_clock 0) (Sample.wall_clock 1) (Sample.wall_clock 2))
      Sample.fresh in
  let R := loop_body Sample.digest Sample.wall_clock (Sample.smooth Sample.text_v1)
             captured (Sample.store [captured]) in
  completion R = Normal tt /\
  uploads (events R) = [] /\
  inserts (events R) = [] /\
  reg_document_versions (world R) = [] /\
  regulations (world R) = ∅ /\
  Forall2
    (fun d d' => Doc.latest_version d' = Doc.latest_version d /\
                 Doc.content_hash d' = Doc.content_hash d)
    [captured] (reg_documents (world R)).
Proof.
  do 3 (split; [evaluate_it|]).
  apply (recheck_after_capture_is_quiet Sample.digest Sample.wall_clock
           sample_digest_length (Sample.smooth Sample.text_v1) Sample.fresh
           (Sample.store
              [Patch.apply
                 (captured_patch Sample.fresh "Regulation" Sample.text_v1
                    (sha256 Sample.digest Sample.text_v1)
                    (Sample.wall_clock 0) (Sample.wall_clock 1) (Sample.wall_clock 2))
                 Sample.fresh])
           (Some Sample.text_v1) "Regulation"
           (Sample.wall_clock 0) (Sample.wall_clock 1) (Sample.wall_clock 2) None);
    evaluate_it.
Defined.

(** X9 on a row that was never fetched: versions 1, then 2. *)
Lemma captures_get_consecutive_versions_witness :
  (forall v, Doc.latest_version Sample.fresh = Some v -> 0 <= v) /\
  nextVersion
    (Patch.apply
       (captured_patch Sample.fresh "Regulation" Sample.text_v1
          (sha256 Sample.digest Sample.text_v1)
          (Sample.wall_clock 0) (Sample.wall_clock 1) (Sample.wall_clock 2))
       Sample.fresh)
  = nextVersion Sample.fresh + 1.
Proof.
  assert (H : forall v, Doc.latest_version Sample.fresh = Some v -> 0 <= v)
    by (intros v Hv; discriminate Hv).
  split; [exact H|].
  apply (captures_get_consecutive_versions Sample.digest sample_digest_length
           Sample.fresh "Regulation" Sample.text_v1
           (Sample.wall_clock 0) (Sample.wall_clock 1) (Sample.wall_clock 2) H).
Defined.

(** X10 on a row whose page cannot be reached. *)
Lemma early_failure_marks_error_witness :
  (goto (Sample.second_times_out 1) = Rejects "Timeout 60000ms exceeded" \/
   (goto (Sample.second_times_out 1) = Resolves tt /\
    evaluate (Sample.second_times_out 1) = Rejects "Timeout 60000ms exceeded") \/
   (exists body,
      goto (Sample.second_times_out 1) = Resolves tt /\
      evaluate (Sample.second_times_out 1) = Resolves body /\
      unchanged Sample.seen (sha256 Sample.digest (innerText_or_empty body)) = false /\
      pdf (Sample.second_times_out 1) = Rejects "Timeout 60000ms exceeded")) /\
  let w := Sample.store [Sample.fresh; Sample.seen] in
  let R := loop_body Sample.digest Sample.wall_clock (Sample.second_times_out 1)
             Sample.seen w in
  uploads (events R) = [] /\
  inserts (events R) = [] /\
  In (LogError ("Failed: " +:+ Doc.canonical_url Sample.seen +:+ " "
                  +:+ "Timeout 60000ms exceeded")) (events R) /\
  updates (events R) =
    [(Doc.id Sample.seen,
      failed_patch (Sample.wall_clock (clock w)) (Sample.wall_clock (S (clock w))))] /\
  reg_document_versions (world R) = reg_document_versions w /\
  regulations (world R) = regulations w /\
  Forall2 same_capture (reg_documents w) (reg_documents (world R)) /\
  (update_failed (Sample.second_times_out 1) = Resolves None ->
   completion R = Normal tt /\
   Forall2
     (fun d d' => if String.eqb (Doc.id d) (Doc.id Sample.seen)
                  then Doc.status d' = Status.error
                  else d' = d)
     (reg_documents w) (reg_documents (world R))).
Proof.
  split; [left; reflexivity|].
  apply (early_failure_marks_error Sample.digest Sample.wall_clock
           (Sample.second_times_out 1) Sample.seen
           (Sample.store [Sample.fresh; Sample.seen]) "Timeout 60000ms exceeded").
  left. reflexivity.
Defined.

(** X11 on a row at version 3 whose page shows the amended text. *)
Lemma title_failure_leaves_unrecorded_snapshot_witness :
  unchanged Sample.seen (sha256 Sample.digest (innerText_or_empty (Some Sample.text_v2)))
    = false /\
  upload (Sample2.title_fails Sample.text_v2) = Resolves None /\
  page_title (Sample2.title_fails Sample.text_v2)
    = Rejects "Execution context was destroyed" /\
  let w := Sample.store [Sample.seen] in
  let R := loop_body Sample.digest Sample.wall_clock (Sample2.title_fails Sample.text_v2)
             Sample.seen w in
  regulations (world R) !! snapshot_path_of Sample.seen = Some "%PDF-1.4" /\
  updates (events R) =
    [(Doc.id Sample.seen,
      failed_patch (Sample.wall_clock (clock w)) (Sample.wall_clock (S (clock w))))] /\
  inserts (events R) = [] /\
  Forall2 same_capture (reg_documents w) (reg_documents (world R)) /\
  reg_document_versions (world R) = reg_document_versions w.
Proof.
  do 3 (split; [evaluate_it|]).
  apply (title_failure_leaves_unrecorded_snapshot Sample.digest Sample.wall_clock
           (Sample2.title_fails Sample.text_v2) Sample.seen (Sample.store [Sample.seen])
           (Some Sample.text_v2) "%PDF-1.4" "Execution context was destroyed");
    evaluate_it.
Defined.

(** X13 on a run whose browser cannot be started. *)
Lemma thrown_run_leaves_browser_open_witness :
  (forall e', close Sample.no_browser <> Rejects e') /\
  completion (main Sample.digest Sample.wall_clock Sample.no_browser
                (Sample.store [Sample.fresh]))
    = Throw "Executable doesn't exist" /\
  ~ In Close (events (main Sample.digest Sample.wall_clock Sample.no_browser
                        (Sample.store [Sample.fresh]))).
Proof.
  assert (H : forall e', close Sample.no_browser <> Rejects e')
    by (intros e'; discriminate).
  split; [exact H|]. split; [evaluate_it|].
  apply (thrown_run_leaves_browser_open Sample.digest Sample.wall_clock
           Sample.no_browser (Sample.store [Sample.fresh])
           "Executable doesn't exist" H).
  evaluate_it.
Defined.

(** X14 on two rows whose pages cannot be reached while the promise of
    the handler's update rejects. *)
Lemma rejected_error_update_stops_the_loop_witness :
  completion
    (visit Sample.digest Sample.wall_clock (Sample.unreachable_and_rejected 0)
       Sample.fresh (Sample.store [Sample.fresh; Sample.seen]))
    = Throw "Timeout 60000ms exceeded" /\
  update_failed (Sample.unreachable_and_rejected 0) = Rejects "fetch failed" /\
  let w := Sample.store [Sample.fresh; Sample.seen] in
  let R := for_of Sample.digest Sample.wall_clock Sample.unreachable_and_rejected 0
             (Sample.fresh :: [Sample.seen]) w in
  completion R = Throw "fetch failed" /\
  visited (events R) = [Doc.canonical_url Sample.fresh] /\
  events R =
    events (loop_body Sample.digest Sample.wall_clock
              (Sample.unreachable_and_rejected 0) Sample.fresh w) /\
  reg_documents (world R) =
    reg_documents
      (world (visit Sample.digest Sample.wall_clock
                (Sample.unreachable_and_rejected 0) Sample.fresh w)).
Proof.
  do 2 (split; [evaluate_it|]).
  apply (rejected_error_update_stops_the_loop Sample.digest Sample.wall_clock
           Sample.unreachable_and_rejected 0 Sample.fresh [Sample.seen]
           (Sample.store [Sample.fresh; Sample.seen])
           "Timeout 60000ms exceeded" "fetch failed");
    evaluate_it.
Defined.

(** X16 on three rows, the second of which cannot be reached. *)
Lemma failed_documents_do_not_change_the_exit_code_witness :
  truthy (SUPABASE_URL (Sample2.configured (Sample.run Sample.second_times_out))) = true /\
  truthy (SUPABASE_SERVICE_ROLE_KEY (Sample2.configured (Sample.run Sample.second_times_out)))
    = true /\
  (forall j e, update_failed (Sample.second_times_out j) <> Rejects e) /\
  exit_code
    (script Sample.digest Sample.wall_clock
       (Sample2.configured (Sample.run Sample.second_times_out))
       (Sample.store [Sample.fresh; Sample.seen; Sample.reset])) = 0.
Proof.
  assert (H : forall j e, update_failed (Sample.second_times_out j) <> Rejects e)
    by (intros [|[|j]] e; discriminate).
  do 2 (split; [evaluate_it|]). split; [exact H|].
  apply (failed_documents_do_not_change_the_exit_code Sample.digest Sample.wall_clock
           (Sample2.configured (Sample.run Sample.second_times_out))
           (Sample.store [Sample.fresh; Sample.seen; Sample.reset]));
    first [exact H | evaluate_it].
Defined.

(** X17 on a run whose query the store refuses. *)
Lemma failed_query_is_fatal_witness :
  (select_pending (outside (Sample2.configured Sample.query_refused))
     = Resolves (Some "JWT expired") \/
   select_pending (outside (Sample2.configured Sample.query_refused))
     = Rejects "JWT expired") /\
  script Sample.digest Sample.wall_clock (Sample2.configured Sample.query_refused)
    (Sample.store [Sample.fresh]) =
  {| exit_code := 1;
     remains := Sample.store [Sample.fresh];
     calls := [Select; LogError "JWT expired"] |}.
Proof.
  split; [left; reflexivity|].
  apply (failed_query_is_fatal Sample.digest Sample.wall_clock
           (Sample2.configured Sample.query_refused) (Sample.store [Sample.fresh])
           "JWT expired");
    first [evaluate_it | left; reflexivity].
Defined.

(** X18 on a store whose only row is out of the queue. *)
Lemma empty_queue_starts_no_browser_witness :
  Forall (fun d => Doc.status d <> Status.pending)
    (reg_documents (Sample.store [Sample2.done])) /\
  script Sample.digest Sample.wall_clock
    (Sample2.configured (Sample.run (fun _ => Sample.smooth Sample.text_v1)))
    (Sample.store [Sample2.done]) =
  {| exit_code := 0;
     remains := Sample.store [Sample2.done];
     calls := [Select; Log "No pending documents."] |}.
Proof.
  assert (H : Forall (fun d => Doc.status d <> Status.pending)
                (reg_documents (Sample.store [Sample2.done])))
    by (repeat constructor; discriminate).
  split; [exact H|].
  apply (empty_queue_starts_no_browser Sample.digest Sample.wall_clock
           (Sample2.configured (Sample.run (fun _ => Sample.smooth Sample.text_v1)))
           (Sample.store [Sample2.done]));
    first [exact H | evaluate_it].
Defined.

(** X19 on three pending rows and one settled row, every call
    succeeding. *)
Lemma accepted_run_works_off_the_batch_witness :
  (forall j : nat,
     update_checked (Sample.smooth Sample.text_v2) = Resolves None /\
     update_captured (Sample.smooth Sample.text_v2) = Resolves None /\
     update_failed (Sample.smooth Sample.text_v2) = Resolves None) /\
  let r := Sample.run (fun _ => Sample.smooth Sample.text_v2) in
  let w := Sample.store [Sample.fresh; Sample2.done; Sample.seen; Sample.reset] in
  let batch := pending_rows (reg_documents w) in
  let rows' := reg_documents (world (main Sample.digest Sample.wall_clock r w)) in
  Forall2
    (fun d d' => Doc.id d' = Doc.id d /\
                 (In (Doc.id d) (map Doc.id batch) -> Doc.status d' <> Status.pending))
    (reg_documents w) rows' /\
  Forall (fun d' => ~ In (Doc.id d') (map Doc.id batch)) (pending_rows rows').
Proof.
  assert (H : forall j : nat,
            update_checked (Sample.smooth Sample.text_v2) = Resolves None /\
            update_captured (Sample.smooth Sample.text_v2) = Resolves None /\
            update_failed (Sample.smooth Sample.text_v2) = Resolves None)
    by (intros j; repeat split; reflexivity).
  split; [exact H|].
  apply (accepted_run_works_off_the_batch Sample.digest Sample.wall_clock
           (Sample.run (fun _ => Sample.smooth Sample.text_v2))
           (Sample.store [Sample.fresh; Sample2.done; Sample.seen; Sample.reset]));
    first [exact H | evaluate_it].
Defined.
